(** * mySQLdbConnector: the Connection wrapper and the Row adapter

    A shallow embedding of [src/mySQLdbConnector.py].  The Python object
    [self] becomes a record of its attributes, the database driver, the
    wall clock and the builtin [int] become one interface ([Driver]) over an
    abstract [world], and every method becomes a computation that threads
    the object and the world, raises Python exceptions as values, and emits
    the calls it makes on its collaborators as a list of events. *)

From Stdlib Require Import ZArith String Ascii List Floats Lia.
From stdpp Require Import base option list gmap strings.

Local Open Scope string_scope.
Local Open Scope Z_scope.
Local Open Scope list_scope.

(** ** Python values and exceptions *)

(** The values that travel through the wrapper: driver-native scalars, and
    [VBuiltin name] for an attribute that ordinary lookup finds on the
    [dict] type itself (a bound method such as [keys]). *)
Inductive value : Type :=
| VNone
| VBool (b : bool)
| VInt (z : Z)
| VFloat (f : float)
| VStr (s : string)
| VBuiltin (name : string).

(** The exceptions that occur.  [OperationalError] and [IntegrityError] are
    the driver's (aliased at the end of the source file); [DriverError]
    stands for any other error class of the driver. *)
Inductive Exn : Type :=
| OperationalError (msg : string)
| IntegrityError (msg : string)
| DriverError (msg : string)
| ValueError (msg : string)
| TypeError (msg : string)
| KeyError (key : string)
| AttributeError (name : string)
| Exception (msg : string).

(** [except OperationalError:] *)
Definition is_OperationalError (e : Exn) : bool :=
  match e with
  | OperationalError _ => true
  | _ => false
  end.

(** What a statement is bound with: the positional tuple or the keyword
    dictionary. *)
Inductive params : Type :=
| PTuple (parameters : list value)
| PDict (kwparameters : gmap string value).

(** [kwparameters or parameters]: a dictionary is false exactly when it is
    empty, and [or] yields its left operand unless that is false. *)
Definition kw_or (kwparameters : gmap string value)
    (parameters : list value) : params :=
  if bool_decide (kwparameters = ∅) then PTuple parameters
  else PDict kwparameters.

(** ** Strings *)

(** [sub in s] for a one-character [sub]. *)
Fixpoint char_in (c : ascii) (s : string) : bool :=
  match s with
  | EmptyString => false
  | String d s' => if Ascii.eqb d c then true else char_in c s'
  end.

(** [s.split(sep)] for a one-character [sep]: every occurrence splits, and
    the result always has at least one element. *)
Fixpoint split (sep : ascii) (s : string) : list string :=
  match s with
  | EmptyString => [EmptyString]
  | String c s' =>
      if Ascii.eqb c sep then EmptyString :: split sep s'
      else match split sep s' with
           | w :: ws => String c w :: ws
           | [] => [String c EmptyString]
           end
  end.

(** The number of occurrences of a character. *)
Fixpoint count_char (c : ascii) (s : string) : nat :=
  match s with
  | EmptyString => O
  | String d s' => (if Ascii.eqb d c then 1 else 0) + count_char c s'
  end.

(** ** The collaborators *)

(** The database driver ([mysql.connector]), the wall clock ([time.time])
    and the builtin [int] on strings.  Every call that can fail returns
    either the exception it raises or its result, together with the next
    world.  The two [close] operations and the attribute reads return
    normally.  [cursor_pending] bounds the rows a cursor still has to
    deliver: a result set is finite. *)
Class Driver : Type := {
  world : Type;
  handle : Type;
  cursor : Type;
  time_time : world -> float * world;
  int_of_str : string -> Exn + Z;
  Connect : gmap string value -> world -> (Exn + handle) * world;
  set_autocommit : handle -> bool -> world -> (Exn + unit) * world;
  db_close : handle -> world -> world;
  db_cursor : handle -> world -> (Exn + cursor) * world;
  MySQLCursor : option handle -> world -> (Exn + cursor) * world;
  cursor_execute :
    cursor -> string -> params -> world -> (Exn + unit) * world;
  cursor_executemany :
    cursor -> string -> list params -> world -> (Exn + unit) * world;
  cursor_description : cursor -> world -> option (list (string * Z));
  cursor_next : cursor -> world -> (Exn + option (list value)) * world;
  cursor_lastrowid : cursor -> world -> value;
  cursor_rowcount : cursor -> world -> value;
  cursor_close : cursor -> world -> world;
  cursor_pending : cursor -> world -> nat;
  cursor_next_pending : forall c w t w',
    cursor_next c w = (inr (Some t), w') ->
    (cursor_pending c w' < cursor_pending c w)%nat
}.

(** What the wrapper does to its collaborators, in order.  [EvCall] marks
    the entry into a method of the wrapper itself. *)
Inductive event `{Driver} : Type :=
| EvCall (method : string)
| EvConnect (args : gmap string value)
| EvAutocommit (h : handle) (b : bool)
| EvDbClose (h : handle)
| EvCursorOpen (c : cursor)
| EvExecute (c : cursor) (query : string) (p : params)
| EvExecutemany (c : cursor) (query : string) (ps : list params)
| EvCursorClose (c : cursor)
| EvLogError (fmt : string) (arg : string) (exc_info : bool).

(** ** The Row adapter *)

Module Row.

(** [class Row(dict)]: a dictionary from column names to values. *)
Abbreviation t := (gmap string value) (only parsing).

(** [Row(pairs)]: the dictionary of a sequence of pairs; a later pair
    with the same key replaces an earlier one. *)
Definition of_pairs (pairs : list (string * value)) : t :=
  fold_left (fun (m : gmap string value) kv => <[kv.1 := kv.2]> m) pairs ∅.

(** [self[name]] *)
Definition __getitem__ (self : t) (name : string) : Exn + value :=
  match self !! name with
  | Some v => inr v
  | None => inl (KeyError name)
  end.

(** [Row.__getattr__] *)
Definition __getattr__ (self : t) (name : string) : Exn + value :=
  match __getitem__ self name with
  | inr v => inr v
  | inl (KeyError _) => inl (AttributeError name)
  | inl e => inl e
  end.

(** The names that ordinary attribute lookup finds on an instance of a
    plain subclass of [dict] (Python 3): those of [dict], of [object] and
    of the class itself. *)
Definition type_attributes : list string :=
  [ "clear"; "copy"; "fromkeys"; "get"; "items"; "keys"; "pop"; "popitem";
    "setdefault"; "update"; "values";
    "__class__"; "__class_getitem__"; "__contains__"; "__delattr__";
    "__delitem__"; "__dict__"; "__dir__"; "__doc__"; "__eq__";
    "__format__"; "__ge__"; "__getattr__"; "__getattribute__";
    "__getitem__"; "__gt__"; "__hash__"; "__init__"; "__init_subclass__";
    "__ior__"; "__iter__"; "__le__"; "__len__"; "__lt__"; "__module__";
    "__ne__"; "__new__"; "__or__"; "__reduce__"; "__reduce_ex__";
    "__repr__"; "__reversed__"; "__ror__"; "__setattr__"; "__setitem__";
    "__sizeof__"; "__str__"; "__subclasshook__"; "__weakref__" ].

Definition on_type (name : string) : bool :=
  bool_decide (name ∈ type_attributes).

(** [row.name]: Python calls [__getattr__] only when ordinary lookup has
    not found the attribute. *)
Definition getattr (self : t) (name : string) : Exn + value :=
  if on_type name then inr (VBuiltin name) else __getattr__ self name.

End Row.

(** ** The Connection wrapper *)

Module Connection.

Section WithDriver.

Context `{D : Driver}.

(** The attributes of a [Connection] object.  [socket] is [None] while the
    attribute is not set (the constructor sets it on one branch only). *)
Record obj : Type := Obj {
  host : string;
  database : string;
  max_idle_time : float;
  socket : option value;
  _db : option handle;
  _db_args : gmap string value;
  _last_use_time : float
}.

Definition with_db (db : option handle) (o : obj) : obj :=
  Obj (host o) (database o) (max_idle_time o) (socket o) db (_db_args o)
      (_last_use_time o).

Definition with_last_use_time (t : float) (o : obj) : obj :=
  Obj (host o) (database o) (max_idle_time o) (socket o) (_db o)
      (_db_args o) t.

(** The object together with the world it runs in. *)
Record state : Type := State { self : obj; env : world }.

(** A method body: from a state to the events it emitted, the state it
    left, and the exception it raised or the value it returned. *)
Definition M (A : Type) : Type := state -> list event * state * (Exn + A).

Definition ret {A} (a : A) : M A := fun s => ([], s, inr a).

Definition raise {A} (e : Exn) : M A := fun s => ([], s, inl e).

Definition bind {A B} (m : M A) (k : A -> M B) : M B := fun s =>
  match m s with
  | (e1, s1, inl x) => (e1, s1, inl x)
  | (e1, s1, inr a) =>
      match k a s1 with
      | (e2, s2, r) => (e1 ++ e2, s2, r)
      end
  end.

(** [try: m finally: f] *)
Definition try_finally {A} (m : M A) (f : M unit) : M A := fun s =>
  match m s with
  | (e1, s1, r) =>
      match f s1 with
      | (e2, s2, inl x) => (e1 ++ e2, s2, inl x)
      | (e2, s2, inr _) => (e1 ++ e2, s2, r)
      end
  end.

(** [try: m except <caught>: h], with the exception at hand in [h]. *)
Definition try_except {A} (m : M A) (caught : Exn -> bool)
    (h : Exn -> M A) : M A := fun s =>
  match m s with
  | (e1, s1, inl x) =>
      if caught x then
        match h x s1 with
        | (e2, s2, r) => (e1 ++ e2, s2, r)
        end
      else (e1, s1, inl x)
  | r => r
  end.

End WithDriver.

Arguments obj {D}.
Arguments state {D}.
Arguments M {D} A.

#[global] Instance M_ret `{D : Driver} : MRet M := @ret D.
#[global] Instance M_bind `{D : Driver} : MBind M :=
  fun A B k m => bind m k.

Section Methods.

Context `{D : Driver}.

(** *** Reading and writing [self], calling the collaborators *)

Definition attr {A} (f : obj -> A) : M A := fun s => ([], s, inr (f (self s))).

Definition set__db (db : option handle) : M unit := fun s =>
  ([], State (with_db db (self s)) (env s), inr tt).

Definition set__last_use_time (t : float) : M unit := fun s =>
  ([], State (with_last_use_time t (self s)) (env s), inr tt).

Definition emit (e : event) : M unit := fun s => ([e], s, inr tt).

(** A call on a collaborator that may raise. *)
Definition call {A} (f : world -> (Exn + A) * world) : M A := fun s =>
  match f (env s) with
  | (r, w) => ([], State (self s) w, r)
  end.

(** A call on a collaborator that returns normally. *)
Definition call_total {A} (f : world -> A * world) : M A := fun s =>
  match f (env s) with
  | (a, w) => ([], State (self s) w, inr a)
  end.

Definition read {A} (f : world -> A) : M A := fun s =>
  ([], s, inr (f (env s))).

Definition logging_error (fmt arg : string) (exc_info : bool) : M unit :=
  emit (EvLogError fmt arg exc_info).

(** [cursor.close()] *)
Definition close_cursor (c : cursor) : M unit :=
  emit (EvCursorClose c);;
  call_total (fun w => (tt, cursor_close c w)).

(** *** The methods, in the order of the source *)

(** [Connection.close] *)
Definition close : M unit :=
  db ← attr _db;
  match db with
  | Some h =>
      emit (EvDbClose h);;
      call_total (fun w => (tt, db_close h w));;
      set__db None
  | None => ret tt
  end.

(** [Connection.__del__] *)
Definition __del__ : M unit := close.

(** [Connection.reconnect] *)
Definition reconnect : M unit :=
  emit (EvCall "reconnect");;
  close;;
  args ← attr _db_args;
  emit (EvConnect args);;
  h ← call (Connect args);
  set__db (Some h);;
  db ← attr _db;
  match db with
  | Some h' =>
      emit (EvAutocommit h' true);;
      call (set_autocommit h' true)
  | None => raise (AttributeError "autocommit")
  end.

(** The condition of [_ensure_connected]; [or] does not read the clock
    when the handle is absent. *)
Definition needs_reconnect : M bool :=
  db ← attr _db;
  match db with
  | None => ret true
  | Some _ =>
      now ← call_total time_time;
      last ← attr _last_use_time;
      idle ← attr max_idle_time;
      ret (PrimFloat.ltb idle (PrimFloat.sub now last))
  end.

(** [Connection._ensure_connected] *)
Definition _ensure_connected : M unit :=
  stale ← needs_reconnect;
  (if stale : bool then reconnect else ret tt);;
  now ← call_total time_time;
  set__last_use_time now.

(** [Connection._cursor] *)
Definition _cursor : M cursor :=
  _ensure_connected;;
  db ← attr _db;
  match db with
  | Some h =>
      c ← call (db_cursor h);
      emit (EvCursorOpen c);;
      ret c
  | None => raise (AttributeError "cursor")
  end.

(** [Connection._execute] *)
Definition _execute (c : cursor) (query : string) (parameters : list value)
    (kwparameters : gmap string value) : M unit :=
  try_except
    (emit (EvExecute c query (kw_or kwparameters parameters));;
     call (cursor_execute c query (kw_or kwparameters parameters)))
    is_OperationalError
    (fun e =>
       h ← attr host;
       logging_error "error connecting to MySQL on %s" h false;;
       close;;
       raise e).

(** [[d[0] for d in cursor.description]]; the description of a statement
    without a result set is [None], which cannot be iterated. *)
Definition column_names (c : cursor) : M (list string) :=
  d ← read (cursor_description c);
  match d with
  | Some ds => ret (map fst ds)
  | None => raise (TypeError "'NoneType' object is not iterable")
  end.

(** [Row(zip(column_names, row))] *)
Definition make_row (column_names : list string) (row : list value) : Row.t :=
  Row.of_pairs (combine column_names row).

(** [for row in cursor], collecting the rows; [None] when [fuel] runs out
    before the cursor is exhausted. *)
Fixpoint fetch (fuel : nat) (c : cursor) (column_names : list string)
    (w : world) : option ((Exn + list Row.t) * world) :=
  match fuel with
  | O => None
  | S n =>
      match cursor_next c w with
      | (inl x, w1) => Some (inl x, w1)
      | (inr None, w1) => Some (inr [], w1)
      | (inr (Some row), w1) =>
          match fetch n c column_names w1 with
          | Some (inr rows, w2) =>
              Some (inr (make_row column_names row :: rows), w2)
          | r => r
          end
      end
  end.

(** [[Row(zip(column_names, row)) for row in cursor]], with the fuel that
    [cursor_pending] shows to be enough ([fetch_enough_fuel] below). *)
Definition fetch_all (c : cursor) (column_names : list string)
    : M (list Row.t) := fun s =>
  match fetch (S (cursor_pending c (env s))) c column_names (env s) with
  | Some (r, w) => ([], State (self s) w, r)
  | None => ([], s, inr [])
  end.

(** A generator object of [Connection.iter]: not yet started, suspended at
    its [yield] (inside the [try], holding its cursor and column names),
    or finished. *)
Inductive generator : Type :=
| Created (query : string) (parameters : list value)
    (kwparameters : gmap string value)
| Suspended (c : cursor) (column_names : list string)
| Finished.

(** [Connection.iter]: calling a generator function runs none of its
    body. *)
Definition iter (query : string) (parameters : list value)
    (kwparameters : gmap string value) : generator :=
  Created query parameters kwparameters.

(** The [for] loop of [iter] from its head: the next row is yielded, or the
    loop ends (normally or by an exception) and the [finally] clause
    runs. *)
Definition iter_loop (c : cursor) (column_names : list string)
    : state -> list event * state * (generator * (Exn + option Row.t)) :=
  fun s =>
  match call (cursor_next c) s with
  | (e1, s1, inr (Some row)) =>
      (e1, s1, (Suspended c column_names,
                inr (Some (make_row column_names row))))
  | (e1, s1, r) =>
      match try_finally (fun s' => ([], s', r)) (close_cursor c) s1 with
      | (e2, s2, inl x) => (e1 ++ e2, s2, (Finished, inl x))
      | (e2, s2, inr _) => (e1 ++ e2, s2, (Finished, inr None))
      end
  end.

(** [next(g)]: runs the body of [iter] up to the next [yield].  [Some row]
    is the row yielded, [None] is [StopIteration]. *)
Definition gen_next (g : generator)
    : state -> list event * state * (generator * (Exn + option Row.t)) :=
  fun s =>
  match g with
  | Finished => ([], s, (Finished, inr None))
  | Suspended c column_names => iter_loop c column_names s
  | Created query parameters kwparameters =>
      match (_ensure_connected;;
             db ← attr _db;
             c ← call (MySQLCursor db);
             emit (EvCursorOpen c);;
             ret c) s with
      | (e1, s1, inl x) => (e1, s1, (Finished, inl x))
      | (e1, s1, inr c) =>
          match (_execute c query parameters kwparameters;;
                 column_names c) s1 with
          | (e2, s2, inl x) =>
              match try_finally (raise x) (close_cursor c) s2 with
              | (e3, s3, inl y) => (e1 ++ e2 ++ e3, s3, (Finished, inl y))
              | (e3, s3, inr r) => (e1 ++ e2 ++ e3, s3, (Finished, inr r))
              end
          | (e2, s2, inr names) =>
              match iter_loop c names s2 with
              | (e3, s3, gr) => (e1 ++ e2 ++ e3, s3, gr)
              end
          end
      end
  end.

(** [g.close()], which also runs when the generator object is discarded:
    [GeneratorExit] is raised at the [yield] where the generator is
    suspended, so the [finally] clause runs; a generator that has not
    started or has finished runs nothing. *)
Definition gen_close (g : generator)
    : state -> list event * state * (generator * (Exn + unit)) :=
  fun s =>
  match g with
  | Suspended c _ =>
      match close_cursor c s with
      | (e, s', r) => (e, s', (Finished, r))
      end
  | _ => ([], s, (Finished, inr tt))
  end.

(** [Connection.query] *)
Definition query (query : string) (parameters : list value)
    (kwparameters : gmap string value) : M (list Row.t) :=
  c ← _cursor;
  try_finally
    (_execute c query parameters kwparameters;;
     names ← column_names c;
     fetch_all c names)
    (close_cursor c).

(** [Connection.get] *)
Definition get (q : string) (parameters : list value)
    (kwparameters : gmap string value) : M (option Row.t) :=
  rows ← query q parameters kwparameters;
  match rows with
  | [] => ret None
  | row0 :: _ =>
      if (1 <? length rows)%nat
      then raise (Exception "Multiple rows returned for Database.get() query")
      else ret (Some row0)
  end.

(** [Connection.execute_lastrowid] *)
Definition execute_lastrowid (query : string) (parameters : list value)
    (kwparameters : gmap string value) : M value :=
  c ← _cursor;
  try_finally
    (_execute c query parameters kwparameters;;
     read (cursor_lastrowid c))
    (close_cursor c).

(** [Connection.execute] *)
Definition execute (query : string) (parameters : list value)
    (kwparameters : gmap string value) : M value :=
  execute_lastrowid query parameters kwparameters.

(** [Connection.execute_rowcount] *)
Definition execute_rowcount (query : string) (parameters : list value)
    (kwparameters : gmap string value) : M value :=
  c ← _cursor;
  try_finally
    (_execute c query parameters kwparameters;;
     read (cursor_rowcount c))
    (close_cursor c).

(** [Connection.executemany_lastrowid] *)
Definition executemany_lastrowid (query : string)
    (parameters : list params) : M value :=
  c ← _cursor;
  try_finally
    (emit (EvExecutemany c query parameters);;
     call (cursor_executemany c query parameters);;
     read (cursor_lastrowid c))
    (close_cursor c).

(** [Connection.executemany] *)
Definition executemany (query : string) (parameters : list params)
    : M value :=
  executemany_lastrowid query parameters.

(** [Connection.executemany_rowcount] *)
Definition executemany_rowcount (query : string)
    (parameters : list params) : M value :=
  c ← _cursor;
  try_finally
    (emit (EvExecutemany c query parameters);;
     call (cursor_executemany c query parameters);;
     read (cursor_rowcount c))
    (close_cursor c).

(** The aliases at the end of the class body. *)
Definition update := execute_rowcount.
Definition updatemany := executemany_rowcount.
Definition insert := execute_lastrowid.
Definition insertmany := executemany_lastrowid.

(** The defaults of the constructor's optional arguments. *)
Definition default_max_idle_time : float := 28800%float.
Definition default_connect_timeout : value := VInt 4.
Definition default_time_zone : string := "+0:00".

(** The [args] dictionary of [__init__], up to the host: the keyword
    arguments of [dict(...)], then [user] and [passwd] when given. *)
Definition base_args (database : string) (user password : option string)
    (connect_timeout : value) (time_zone : string) : gmap string value :=
  let args : gmap string value :=
    <["sql_mode" := VStr "TRADITIONAL"]>
      (<["connect_timeout" := connect_timeout]>
        (<["time_zone" := VStr time_zone]>
          (<["db" := VStr database]>
            (<["charset" := VStr "utf8"]>
              (<["use_unicode" := VBool true]> ∅))))) in
  let args :=
    match user with
    | Some u => <["user" := VStr u]> args
    | None => args
    end in
  match password with
  | Some p => <["passwd" := VStr p]> args
  | None => args
  end.

(** The host part of [__init__]: the finished [args] and the [socket]
    attribute, or the exception of [int]. *)
Definition host_args (host : string) (args : gmap string value)
    : Exn + (gmap string value * option value) :=
  if char_in "/" host then inr (<["unix_socket" := VStr host]> args, None)
  else
    let pair := split ":" host in
    if bool_decide (length pair = 2%nat) then
      match int_of_str (nth 1 pair "") with
      | inr port =>
          inr (<["port" := VInt port]>
                 (<["host" := VStr (nth 0 pair "")]> args), Some VNone)
      | inl e => inl e
      end
    else
      inr (<["port" := VInt 3306]> (<["host" := VStr host]> args),
           Some VNone).

(** [Connection.__init__]; [max_idle_time] is taken after [float(...)]. *)
Definition __init__ (host database : string) (user password : option string)
    (max_idle_time : float) (connect_timeout : value) (time_zone : string)
    (w : world) : list event * world * (Exn + obj) :=
  match host_args host
          (base_args database user password connect_timeout time_zone) with
  | inl e => ([], w, inl e)
  | inr (args, socket) =>
      match time_time w with
      | (now, w1) =>
          let self0 := Obj host database max_idle_time socket None args now in
          match try_except reconnect (fun _ => true)
                  (fun _ =>
                     logging_error "Cannot connect to MySQL on %s" host true)
                  (State self0 w1) with
          | (evs, s, inr _) => (evs, env s, inr (self s))
          | (evs, s, inl e) => (evs, env s, inl e)
          end
      end
  end.

End Methods.

End Connection.

(** ** A scripted driver

    A concrete [Driver] in the manner of a test double: the clock advances
    by a fixed step at every reading, [Connect] follows a script of
    outcomes, and the cursor reports the description, rows, last row id and
    row count it was loaded with.  Handles and cursors are numbered. *)

Module Stub.

Record stub_world : Type := World {
  now : float;
  tick : float;
  connect_script : list (option Exn);
  next_id : nat;
  execute_outcome : option Exn;
  executemany_outcome : option Exn;
  description : option (list (string * Z));
  rows : list (list value);
  lastrowid : value;
  rowcount : value
}.

Definition with_clock (t : float) (w : stub_world) : stub_world :=
  World t (tick w) (connect_script w) (next_id w) (execute_outcome w)
    (executemany_outcome w) (description w) (rows w) (lastrowid w)
    (rowcount w).

Definition with_connect (script : list (option Exn)) (n : nat)
    (w : stub_world) : stub_world :=
  World (now w) (tick w) script n (execute_outcome w)
    (executemany_outcome w) (description w) (rows w) (lastrowid w)
    (rowcount w).

Definition with_rows (rs : list (list value)) (w : stub_world)
    : stub_world :=
  World (now w) (tick w) (connect_script w) (next_id w) (execute_outcome w)
    (executemany_outcome w) (description w) rs (lastrowid w) (rowcount w).

Definition stub_time (w : stub_world) : float * stub_world :=
  (now w, with_clock (PrimFloat.add (now w) (tick w)) w).

(** Decimal digits only. *)
Fixpoint digits (s : string) (acc : Z) : option Z :=
  match s with
  | EmptyString => Some acc
  | String c s' =>
      let n := Z.of_nat (nat_of_ascii c) in
      if (48 <=? n) && (n <=? 57) then digits s' (10 * acc + (n - 48))
      else None
  end.

Definition stub_int (s : string) : Exn + Z :=
  match s with
  | EmptyString => inl (ValueError "invalid literal for int()")
  | _ =>
      match digits s 0 with
      | Some z => inr z
      | None => inl (ValueError "invalid literal for int()")
      end
  end.

Definition stub_connect (args : gmap string value) (w : stub_world)
    : (Exn + nat) * stub_world :=
  match connect_script w with
  | Some e :: script => (inl e, with_connect script (next_id w) w)
  | None :: script => (inr (next_id w), with_connect script (S (next_id w)) w)
  | [] => (inr (next_id w), with_connect [] (S (next_id w)) w)
  end.

Definition stub_cursor (w : stub_world) : (Exn + nat) * stub_world :=
  (inr (next_id w), with_connect (connect_script w) (S (next_id w)) w).

Definition outcome (o : option Exn) (w : stub_world)
    : (Exn + unit) * stub_world :=
  match o with
  | Some e => (inl e, w)
  | None => (inr tt, w)
  end.

Definition stub_next (c : nat) (w : stub_world)
    : (Exn + option (list value)) * stub_world :=
  match rows w with
  | [] => (inr None, w)
  | r :: rs => (inr (Some r), with_rows rs w)
  end.

Lemma stub_next_pending (c : nat) (w : stub_world) (t : list value)
    (w' : stub_world) :
  stub_next c w = (inr (Some t), w') ->
  (length (rows w') < length (rows w))%nat.
Proof.
  unfold stub_next. destruct (rows w) as [|r rs] eqn:E; intros H.
  - discriminate H.
  - injection H as _ <-. simpl. lia.
Qed.

#[export] Instance driver : Driver := {|
  world := stub_world;
  handle := nat;
  cursor := nat;
  time_time := stub_time;
  int_of_str := stub_int;
  Connect := stub_connect;
  set_autocommit := fun _ _ w => (inr tt, w);
  db_close := fun _ w => w;
  db_cursor := fun _ w => stub_cursor w;
  MySQLCursor := fun _ w => stub_cursor w;
  cursor_execute := fun _ _ _ w => outcome (execute_outcome w) w;
  cursor_executemany := fun _ _ _ w => outcome (executemany_outcome w) w;
  cursor_description := fun _ w => description w;
  cursor_next := stub_next;
  cursor_lastrowid := fun _ w => lastrowid w;
  cursor_rowcount := fun _ w => rowcount w;
  cursor_close := fun _ w => w;
  cursor_pending := fun _ w => length (rows w);
  cursor_next_pending := stub_next_pending
|}.

(** A world in which everything succeeds: a clock at 1000 s stepping by
    1 s, a result set of the given rows over columns [id] and [name]. *)
Definition healthy (rs : list (list value)) : stub_world :=
  World 1000%float 1%float [] 0 None None (Some [("id", 3); ("name", 253)])
    rs (VInt 42) (VInt 1).

(** A connected object, last used at time 990 s, idle limit 8 hours. *)
Definition connected : Connection.obj :=
  Connection.Obj "db.local" "shop" 28800%float (Some VNone)
    (Some 7%nat) ∅ 990%float.

(** The same object without a handle. *)
Definition disconnected : Connection.obj :=
  Connection.with_db None connected.

End Stub.

(** ** Observations

    What the properties below are stated on: the parts of an outcome, the
    projections of an event list, the public operations gathered in two
    families, and a consumer of the lazy iterator. *)

Section Observations.

Context `{D : Driver}.

Definition events {A} (x : list event * Connection.state * A) : list event :=
  x.1.1.

Definition final {A} (x : list event * Connection.state * A)
    : Connection.state :=
  x.1.2.

Definition outcome {A} (x : list event * Connection.state * A) : A := x.2.

(** The number of calls of [Connection.reconnect]. *)
Definition reconnect_calls (evs : list event) : nat :=
  length (omap (fun e =>
                  match e with
                  | EvCall m => if String.eqb m "reconnect" then Some tt else None
                  | _ => None
                  end) evs).

(** The arguments of the calls of the driver's [Connect]. *)
Definition connects (evs : list event) : list (gmap string value) :=
  omap (fun e => match e with EvConnect a => Some a | _ => None end) evs.

(** The handles closed. *)
Definition handle_closes (evs : list event) : list handle :=
  omap (fun e => match e with EvDbClose h => Some h | _ => None end) evs.

(** The messages logged. *)
Definition logged (evs : list event) : list (string * string) :=
  omap (fun e =>
          match e with
          | EvLogError fmt arg _ => Some (fmt, arg)
          | _ => None
          end) evs.

(** The statements handed to [cursor.execute], with what binds them. *)
Definition executes (evs : list event) : list (cursor * string * params) :=
  omap (fun e =>
          match e with
          | EvExecute c q p => Some (c, q, p)
          | _ => None
          end) evs.

(** The cursors the driver handed out. *)
Definition opened (evs : list event) : list cursor :=
  omap (fun e => match e with EvCursorOpen c => Some c | _ => None end) evs.

(** The life of cursors: handed out by the driver, closed by the wrapper. *)
Inductive cursor_step : Type :=
| Acquired (c : cursor)
| Released (c : cursor).

Definition cursor_trace (evs : list event) : list cursor_step :=
  omap (fun e =>
          match e with
          | EvCursorOpen c => Some (Acquired c)
          | EvCursorClose c => Some (Released c)
          | _ => None
          end) evs.

(** No cursor was acquired and none closed, or one cursor was acquired and
    then closed, once. *)
Definition closed_exactly_once (evs : list event) : Prop :=
  cursor_trace evs = [] \/
  exists c, cursor_trace evs = [Acquired c; Released c].

(** The condition of the specification for a reconnect: the handle is
    absent, or the time elapsed since the last use, on the clock as it reads
    now, exceeds the idle limit. *)
Definition spec_stale (s : Connection.state) : bool :=
  match Connection._db (Connection.self s) with
  | None => true
  | Some _ =>
      PrimFloat.ltb
        (Connection.max_idle_time (Connection.self s))
        (PrimFloat.sub (time_time (Connection.env s)).1
           (Connection._last_use_time (Connection.self s)))
  end.

(** The last-use timestamp of [s'] is a reading of the clock, and nothing
    happened in the world since that reading. *)
Definition stamped_now (s' : Connection.state) : Prop :=
  exists w, time_time w
            = (Connection._last_use_time (Connection.self s'),
               Connection.env s').

(** The operations that run one statement; [Siter] is the first [next] on
    the generator of [Connection.iter]. *)
Inductive single : Type :=
| Squery | Sget | Sexecute | Sexecute_lastrowid | Sexecute_rowcount
| Supdate | Sinsert | Siter.

(** The operations that run a batch. *)
Inductive batch : Type :=
| Bexecutemany | Bexecutemany_lastrowid | Bexecutemany_rowcount
| Bupdatemany | Binsertmany.

(** What an operation returns. *)
Inductive answer : Type :=
| Rows (rows : list Row.t)
| MaybeRow (row : option Row.t)
| Value (v : value)
| Yielded (g : Connection.generator) (row : option Row.t).

Definition answering {A} (f : A -> answer) (m : Connection.M A)
    : Connection.M answer := fun s =>
  match m s with
  | (e, s', inl x) => (e, s', inl x)
  | (e, s', inr a) => (e, s', inr (f a))
  end.

Definition run_single (m : single) (q : string) (ps : list value)
    (kw : gmap string value) : Connection.M answer :=
  match m with
  | Squery => answering Rows (Connection.query q ps kw)
  | Sget => answering MaybeRow (Connection.get q ps kw)
  | Sexecute => answering Value (Connection.execute q ps kw)
  | Sexecute_lastrowid => answering Value (Connection.execute_lastrowid q ps kw)
  | Sexecute_rowcount => answering Value (Connection.execute_rowcount q ps kw)
  | Supdate => answering Value (Connection.update q ps kw)
  | Sinsert => answering Value (Connection.insert q ps kw)
  | Siter => fun s =>
      match Connection.gen_next (Connection.iter q ps kw) s with
      | (e, s', (g, inl x)) => (e, s', inl x)
      | (e, s', (g, inr r)) => (e, s', inr (Yielded g r))
      end
  end.

Definition run_batch (m : batch) (q : string) (pss : list params)
    : Connection.M answer :=
  match m with
  | Bexecutemany => answering Value (Connection.executemany q pss)
  | Bexecutemany_lastrowid =>
      answering Value (Connection.executemany_lastrowid q pss)
  | Bexecutemany_rowcount =>
      answering Value (Connection.executemany_rowcount q pss)
  | Bupdatemany => answering Value (Connection.updatemany q pss)
  | Binsertmany => answering Value (Connection.insertmany q pss)
  end.

(** A consumer that takes [n] steps of a generator ... *)
Fixpoint drive (n : nat) (g : Connection.generator) (s : Connection.state)
    : list event * Connection.state * Connection.generator :=
  match n with
  | O => ([], s, g)
  | S n' =>
      match Connection.gen_next g s with
      | (e1, s1, (g1, _)) =>
          match drive n' g1 s1 with
          | (e2, s2, g2) => (e1 ++ e2, s2, g2)
          end
      end
  end.

(** ... and then abandons it: [n] calls of [next] on [iter(...)], then
    [close]. *)
Definition abandon_after (n : nat) (q : string) (ps : list value)
    (kw : gmap string value) (s : Connection.state)
    : list event * Connection.state * Connection.generator :=
  match drive n (Connection.iter q ps kw) s with
  | (e1, s1, g1) =>
      match Connection.gen_close g1 s1 with
      | (e2, s2, (g2, _)) => (e1 ++ e2, s2, g2)
      end
  end.

(** The constructor returns an object, and [P] holds of its connect
    arguments. *)
Definition constructed_with (database : string)
    (user password : option string) (idle : float) (timeout : value)
    (tz : string) (host : string) (w : world)
    (P : gmap string value -> Prop) : Prop :=
  exists evs w' o,
    Connection.__init__ host database user password idle timeout tz w
    = (evs, w', inr o) /\ P (Connection._db_args o).

(** How an operation of the single-statement family obtains its cursor:
    [iter] constructs it on the handle, the others call [_cursor]. *)
Definition acquire (m : single) : Connection.M cursor :=
  match m with
  | Siter =>
      Connection._ensure_connected;;
      db ← Connection.attr Connection._db;
      c ← Connection.call (MySQLCursor db);
      Connection.emit (EvCursorOpen c);;
      Connection.ret c
  | _ => Connection._cursor
  end.

(** What a batch operation returns when the batch has run. *)
Definition batch_value (m : batch) (c : cursor) (w : world) : value :=
  match m with
  | Bexecutemany_rowcount | Bupdatemany => cursor_rowcount c w
  | _ => cursor_lastrowid c w
  end.

(** The state in which [_ensure_connected] calls [reconnect]: the clock has
    been read if there was a handle to be judged stale. *)
Definition before_reconnect (s : Connection.state) : Connection.state :=
  match Connection._db (Connection.self s) with
  | None => s
  | Some _ =>
      Connection.State (Connection.self s) (time_time (Connection.env s)).2
  end.

(** What has happened to the cursor of a generator in each of its
    states. *)
Definition generator_trace (g : Connection.generator)
    (tr : list cursor_step) : Prop :=
  match g with
  | Connection.Created _ _ _ => tr = []
  | Connection.Suspended c _ => tr = [Acquired c]
  | Connection.Finished =>
      tr = [] \/ exists c, tr = [Acquired c; Released c]
  end.

(** The attributes fixed at construction. *)
Definition config (o : Connection.obj)
    : string * string * float * option value * gmap string value :=
  (Connection.host o, Connection.database o, Connection.max_idle_time o,
   Connection.socket o, Connection._db_args o).

(** The batches handed to [cursor.executemany]. *)
Definition executemanys (evs : list event)
    : list (cursor * string * list params) :=
  omap (fun e =>
          match e with
          | EvExecutemany c q pss => Some (c, q, pss)
          | _ => None
          end) evs.

(** Iterating the cursor [c] from the world [w] delivers the tuples [ts]
    and then ends, leaving the world [w']. *)
Inductive delivers (c : cursor) : world -> list (list value) -> world -> Prop :=
| delivers_end (w w' : world) :
    cursor_next c w = (inr None, w') -> delivers c w [] w'
| delivers_row (w w1 w' : world) (t : list value) (ts : list (list value)) :
    cursor_next c w = (inr (Some t), w1) ->
    delivers c w1 ts w' -> delivers c w (t :: ts) w'.

(** A [for] loop over a generator that takes at most [n] rows: it stops at
    the end of the generator or at an exception. *)
Fixpoint collect (n : nat) (g : Connection.generator) (s : Connection.state)
    : list event * Connection.state * Connection.generator * list Row.t :=
  match n with
  | O => ([], s, g, [])
  | S n' =>
      match Connection.gen_next g s with
      | (e1, s1, (g1, inr (Some row))) =>
          match collect n' g1 s1 with
          | (e2, s2, g2, rows) => (e1 ++ e2, s2, g2, row :: rows)
          end
      | (e1, s1, (g1, _)) => (e1, s1, g1, [])
      end
  end.

End Observations.

(** * Properties *)

(** ** The Row adapter *)

Section RowAccess.

Lemma getattr_off_type (r : Row.t) (name : string) :
  Row.on_type name = false -> Row.getattr r name = Row.__getattr__ r name.
Proof. unfold Row.getattr. intros ->. reflexivity. Qed.

Lemma getattr_method_present (r : Row.t) (name : string) (v : value) :
  r !! name = Some v ->
  Row.__getattr__ r name = inr v /\ Row.__getitem__ r name = inr v.
Proof. unfold Row.__getattr__, Row.__getitem__. intros ->. split; reflexivity. Qed.

Lemma getattr_method_absent (r : Row.t) (name : string) :
  r !! name = None ->
  Row.__getattr__ r name = inl (AttributeError name).
Proof. unfold Row.__getattr__, Row.__getitem__. intros ->. reflexivity. Qed.

(** C8 (as amended).  For every row and every name that ordinary lookup
    does not already find on the [dict] type: when the name is a column of
    the row, [row[name]] and [row.name] return the same value; when it is
    not, [row.name] raises [AttributeError(name)] (the specification's
    FieldNotFound) where [row[name]] raises [KeyError]. *)
Theorem row_attribute_access (r : Row.t) (name : string)
    (Hname : Row.on_type name = false) :
  (forall v, r !! name = Some v ->
     Row.__getitem__ r name = inr v /\ Row.getattr r name = inr v) /\
  (r !! name = None ->
     Row.__getitem__ r name = inl (KeyError name) /\
     Row.getattr r name = inl (AttributeError name)).
Proof.
  rewrite (getattr_off_type r name Hname). split.
  - intros v Hv. destruct (getattr_method_present r name v Hv). auto.
  - intros Hn. split; [|by apply getattr_method_absent].
    unfold Row.__getitem__. by rewrite Hn.
Qed.

Lemma row_attribute_access_witness :
  let r := Row.of_pairs [("id", VInt 7); ("name", VStr "ada")] in
  (Row.__getitem__ r "name" = inr (VStr "ada") /\
   Row.getattr r "name" = inr (VStr "ada")) /\
  (Row.__getitem__ r "nmae" = inl (KeyError "nmae") /\
   Row.getattr r "nmae" = inl (AttributeError "nmae")).
Proof.
  intros r. split.
  - apply (row_attribute_access r "name"); reflexivity.
  - apply (row_attribute_access r "nmae"); reflexivity.
Defined.

(** C8, counterexample.  A row with a column called [keys]: [row["keys"]]
    is the column's value, [row.keys] is the method of [dict]; and on a row
    without a column [items], [row.items] raises nothing. *)
Lemma row_attribute_access_counterexample :
  let r := Row.of_pairs [("keys", VInt 1)] in
  r !! "keys" = Some (VInt 1) /\
  Row.__getitem__ r "keys" = inr (VInt 1) /\
  Row.getattr r "keys" = inr (VBuiltin "keys") /\
  Row.getattr r "keys" <> Row.__getitem__ r "keys" /\
  r !! "items" = None /\
  Row.getattr r "items" <> inl (AttributeError "items").
Proof.
  intros r. repeat split; try reflexivity; vm_compute; discriminate.
Qed.

End RowAccess.

(** ** The host string *)

Section HostString.

Context `{D : Driver}.

Lemma split_nonempty (sep : ascii) (s : string) : split sep s <> [].
Proof.
  induction s as [|c s IH]; simpl; [discriminate|].
  destruct (Ascii.eqb c sep); [discriminate|].
  destruct (split sep s); [contradiction|discriminate].
Qed.

Lemma split_without (sep : ascii) (s : string) :
  char_in sep s = false -> split sep s = [s].
Proof.
  induction s as [|c s IH]; simpl; [reflexivity|].
  destruct (Ascii.eqb c sep); [discriminate|].
  intros H. rewrite (IH H). reflexivity.
Qed.

Lemma split_at_first (sep : ascii) (h p : string) :
  char_in sep h = false ->
  split sep (h ++ String sep p)%string = h :: split sep p.
Proof.
  induction h as [|c h IH]; simpl.
  - intros _. rewrite Ascii.eqb_refl. reflexivity.
  - destruct (Ascii.eqb c sep); [discriminate|].
    intros H. rewrite (IH H). reflexivity.
Qed.

Lemma split_host_port (h p : string) :
  char_in ":" h = false -> char_in ":" p = false ->
  split ":" (h ++ ":" ++ p)%string = [h; p].
Proof.
  intros Hh Hp. change (":" ++ p)%string with (String ":" p).
  rewrite (split_at_first _ _ _ Hh), (split_without _ _ Hp). reflexivity.
Qed.

End HostString.
(** Unfolds the methods and the combinators they are built from. *)
Ltac unfold_M :=
  unfold Connection._cursor, Connection._ensure_connected,
    Connection.needs_reconnect, Connection.reconnect, Connection.close,
    Connection.close_cursor, Connection.logging_error,
    Connection.try_except, Connection.try_finally,
    mbind, Connection.M_bind, Connection.bind, Connection.ret,
    Connection.raise, Connection.attr, Connection.set__db,
    Connection.set__last_use_time, Connection.emit, Connection.call,
    Connection.call_total, Connection.read in *.

Section Construction.
Context `{D : Driver}.

Lemma init_with_args (host database : string) (user password : option string)
    (idle : float) (timeout : value) (tz : string) (w : world)
    (args : gmap string value) (sock : option value) :
  Connection.host_args host
    (Connection.base_args database user password timeout tz)
  = inr (args, sock) ->
  exists evs w' db,
    Connection.__init__ host database user password idle timeout tz w
    = (evs, w',
       inr (Connection.Obj host database idle sock db args (time_time w).1)).
Proof.
  intros H. unfold Connection.__init__. rewrite H.
  destruct (time_time w) as [now w1]. unfold_M. simpl.
  repeat case_match; simplify_eq/=; eauto.
Qed.

Lemma base_args_no_host database user password timeout tz :
  Connection.base_args database user password timeout tz !! "host" = None /\
  Connection.base_args database user password timeout tz !! "port" = None /\
  Connection.base_args database user password timeout tz !! "unix_socket" = None.
Proof.
  unfold Connection.base_args. destruct user, password; simpl;
    repeat split; by simplify_map_eq.
Qed.

End Construction.

Section HostResolution.

Context `{D : Driver}.

Variables (database : string) (user password : option string)
  (idle : float) (timeout : value) (tz : string).

(** C5.  A host string that contains "/" becomes the [unix_socket]
    argument as it is, and neither [host] nor [port] is set; a string
    [h:p] (no "/" in it, no ":" in [h] or [p]) gives [host = h] and
    [port = int(p)], the constructor raising what [int] raises; a string
    without ":" (and without "/") gives [host] the string itself and
    [port = 3306]. *)
Theorem host_resolution (w : world) :
  (forall host,
     char_in "/" host = true ->
     constructed_with database user password idle timeout tz host w
       (fun args =>
       args !! "unix_socket" = Some (VStr host) /\
       args !! "host" = None /\ args !! "port" = None)) /\
  (forall h p,
     char_in "/" (h ++ ":" ++ p)%string = false ->
     char_in ":" h = false -> char_in ":" p = false ->
     match int_of_str p with
     | inr n =>
         constructed_with database user password idle timeout tz
           (h ++ ":" ++ p)%string w
           (fun args =>
           args !! "host" = Some (VStr h) /\
           args !! "port" = Some (VInt n) /\
           args !! "unix_socket" = None)
     | inl e =>
         Connection.__init__ (h ++ ":" ++ p)%string database user password
           idle timeout tz w = ([], w, inl e)
     end) /\
  (forall host,
     char_in "/" host = false -> char_in ":" host = false ->
     constructed_with database user password idle timeout tz host w
       (fun args =>
       args !! "host" = Some (VStr host) /\
       args !! "port" = Some (VInt 3306) /\
       args !! "unix_socket" = None)).
Proof.
  pose proof (base_args_no_host database user password timeout tz)
    as (Bh & Bp & Bu).
  split; [|split].
  - intros host Hs.
    destruct (init_with_args host database user password idle timeout tz w
                (<["unix_socket" := VStr host]>
                   (Connection.base_args database user password timeout tz))
                None) as (evs & w' & db & E).
    { unfold Connection.host_args. rewrite Hs. reflexivity. }
    do 3 eexists. split; [exact E|]. simpl.
    by simplify_map_eq.
  - intros h p Hs Hh Hp.
    assert (Hargs : Connection.host_args (h ++ ":" ++ p)%string
              (Connection.base_args database user password timeout tz)
            = match int_of_str p with
              | inr n =>
                  inr (<["port" := VInt n]>
                         (<["host" := VStr h]>
                            (Connection.base_args database user password
                               timeout tz)), Some VNone)
              | inl e => inl e
              end).
    { unfold Connection.host_args. rewrite Hs, (split_host_port h p Hh Hp).
      simpl. reflexivity. }
    destruct (int_of_str p) as [e|n] eqn:Ep.
    + unfold Connection.__init__. rewrite Hargs. reflexivity.
    + destruct (init_with_args _ database user password idle timeout tz w
                  _ _ Hargs) as (evs & w' & db & E).
      do 3 eexists. split; [exact E|]. simpl. by simplify_map_eq.
  - intros host Hs Hc.
    destruct (init_with_args host database user password idle timeout tz w
                (<["port" := VInt 3306]>
                   (<["host" := VStr host]>
                      (Connection.base_args database user password timeout
                         tz)))
                (Some VNone)) as (evs & w' & db & E).
    { unfold Connection.host_args. rewrite Hs, (split_without _ _ Hc).
      simpl. reflexivity. }
    do 3 eexists. split; [exact E|]. simpl. by simplify_map_eq.
Qed.

End HostResolution.

Lemma host_resolution_witness :
  let w := Stub.healthy [] in
  constructed_with (D := Stub.driver) "shop" None None 28800%float (VInt 4) "+0:00"
    "/var/run/mysqld/mysqld.sock" w (fun args =>
      args !! "unix_socket" = Some (VStr "/var/run/mysqld/mysqld.sock") /\
      args !! "host" = None /\ args !! "port" = None) /\
  constructed_with (D := Stub.driver) "shop" None None 28800%float (VInt 4) "+0:00"
    "db.local:3307" w (fun args =>
      args !! "host" = Some (VStr "db.local") /\
      args !! "port" = Some (VInt 3307) /\
      args !! "unix_socket" = None) /\
  constructed_with (D := Stub.driver) "shop" None None 28800%float (VInt 4) "+0:00"
    "db.local" w (fun args =>
      args !! "host" = Some (VStr "db.local") /\
      args !! "port" = Some (VInt 3306) /\
      args !! "unix_socket" = None).
Proof.
  intros w.
  destruct (host_resolution (D := Stub.driver) "shop" None None 28800%float (VInt 4) "+0:00" w)
    as (Hsock & Hpair & Hhost).
  split; [|split].
  - apply Hsock. reflexivity.
  - apply (Hpair "db.local" "3307"); reflexivity.
  - apply Hhost; reflexivity.
Defined.

(** ** Reconnecting *)

Section Reconnecting.

Context `{D : Driver}.

(** [reconnect] changes no attribute but [_db]. *)
Lemma reconnect_frame (s : Connection.state) :
  Connection.self (final (Connection.reconnect s))
  = Connection.with_db
      (Connection._db (Connection.self (final (Connection.reconnect s))))
      (Connection.self s).
Proof.
  destruct s as [[h d m so db a t] w]. unfold final. unfold_M. simpl.
  repeat case_match; simplify_eq/=; done.
Qed.

(** One call of [reconnect] is one call, and one call of [Connect]. *)
Lemma reconnect_once (s : Connection.state) :
  reconnect_calls (events (Connection.reconnect s)) = 1%nat /\
  connects (events (Connection.reconnect s))
  = [Connection._db_args (Connection.self s)].
Proof.
  destruct s as [[h d m so db a t] w]. unfold events. unfold_M. simpl.
  repeat case_match; simplify_eq/=; done.
Qed.

(** After [reconnect] has returned there is a handle; after [Connect] has
    raised there is none. *)
Lemma reconnect_handle (s : Connection.state) :
  match outcome (Connection.reconnect s) with
  | inr _ =>
      is_Some (Connection._db (Connection.self (final (Connection.reconnect s))))
  | inl _ => True
  end.
Proof.
  destruct s as [[h d m so db a t] w]. unfold outcome, final. unfold_M. simpl.
  repeat case_match; simplify_eq/=; eauto.
Qed.

(** C1 (as amended).  In every state, [_ensure_connected] calls [reconnect]
    exactly once when the handle is absent or the time elapsed since the
    last use exceeds the idle limit, and not at all otherwise; when it
    returns, the last-use timestamp is the reading of the clock at that
    moment; when it raises, it is [reconnect] that raised, and the timestamp
    is the one before the call. *)
Theorem ensure_connected_reconnects (s : Connection.state) :
  reconnect_calls (events (Connection._ensure_connected s))
  = (if spec_stale s then 1 else 0)%nat /\
  match outcome (Connection._ensure_connected s) with
  | inr _ => stamped_now (final (Connection._ensure_connected s))
  | inl e =>
      spec_stale s = true /\
      Connection._last_use_time
        (Connection.self (final (Connection._ensure_connected s)))
      = Connection._last_use_time (Connection.self s)
  end.
Proof.
  assert (Hr : forall s0 : Connection.state,
             reconnect_calls (Connection.reconnect s0).1.1 = 1%nat /\
             Connection._last_use_time
               (Connection.self (Connection.reconnect s0).1.2)
             = Connection._last_use_time (Connection.self s0)).
  { intros s0. split; [apply reconnect_once|].
    pose proof (reconnect_frame s0) as Hf. unfold final in Hf.
    by rewrite Hf. }
  destruct s as [[h d m so db a t] w].
  unfold spec_stale, stamped_now, events, final, outcome.
  unfold Connection._ensure_connected, Connection.needs_reconnect,
    Connection.set__last_use_time, mbind, Connection.M_bind,
    Connection.bind, Connection.ret, Connection.attr,
    Connection.call_total.
  simpl.
  destruct db as [h0|]; simpl.
  - destruct (time_time w) as [now w1]; simpl.
    destruct (PrimFloat.ltb m (PrimFloat.sub now t)); simpl.
    + match goal with
      | |- context [Connection.reconnect ?s0] =>
          destruct (Hr s0) as [Hone Hstamp];
          destruct (Connection.reconnect s0) as [[e0 s1] [x|[]]]
      end; simpl in *; [done|].
      destruct (time_time (Connection.env s1)) as [now' w2] eqn:Et; simpl.
      rewrite !app_nil_r. eauto.
    + destruct (time_time w1) as [now' w2] eqn:Et; simpl. eauto.
  - match goal with
    | |- context [Connection.reconnect ?s0] =>
        destruct (Hr s0) as [Hone Hstamp];
        destruct (Connection.reconnect s0) as [[e0 s1] [x|[]]]
    end; simpl in *; [done|].
    destruct (time_time (Connection.env s1)) as [now' w2] eqn:Et; simpl.
    rewrite !app_nil_r. eauto.
Qed.

End Reconnecting.

(** C1, counterexample.  An object without a handle, last used at 990 s,
    a clock at 1000 s and a server that refuses the connection:
    [_ensure_connected] raises what [Connect] raised and the timestamp is
    still 990 s, which is no reading of the clock. *)
Lemma ensure_connected_counterexample :
  let s := Connection.State Stub.disconnected
             (Stub.World 1000%float 1%float
                [Some (OperationalError "server down")] 0 None None None []
                VNone VNone) in
  outcome (Connection._ensure_connected s)
  = inl (OperationalError "server down") /\
  reconnect_calls (events (Connection._ensure_connected s)) = 1%nat /\
  Connection._last_use_time
    (Connection.self (final (Connection._ensure_connected s)))
  = 990%float /\
  ~ stamped_now (final (Connection._ensure_connected s)).
Proof.
  intros s. repeat split; try reflexivity.
  intros [w H]. vm_compute in H. destruct w as [n k cs i eo mo de rs lr rc].
  simpl in H.
  assert (Hn : n = 990%float) by congruence.
  assert (Hk : k = 1%float) by congruence.
  assert (Ht : PrimFloat.add n k = 1000%float) by congruence.
  subst n k.
  assert (Hb : PrimFloat.eqb (PrimFloat.add 990 1) 1000 = true)
    by (rewrite Ht; reflexivity).
  vm_compute in Hb. discriminate Hb.
Qed.

(** ** Fetching rows and the single-row lookup *)

Section Lookup.

Context `{D : Driver}.

(** The fuel that [fetch_all] gives to [fetch] is enough: the loop over the
    cursor ends. *)
Lemma fetch_enough_fuel (fuel : nat) (c : cursor) (names : list string)
    (w : world) :
  (cursor_pending c w < fuel)%nat ->
  is_Some (Connection.fetch fuel c names w).
Proof.
  revert w. induction fuel as [|n IH]; intros w Hlt; [lia|]. simpl.
  destruct (cursor_next c w) as [[x|[row|]] w1] eqn:E; eauto.
  pose proof (cursor_next_pending c w row w1 E) as Hdec.
  destruct (IH w1 ltac:(lia)) as [[[x|rows] w2] ->]; eauto.
Qed.

Lemma fetch_all_terminates (c : cursor) (names : list string)
    (s : Connection.state) :
  exists r w,
    Connection.fetch (S (cursor_pending c (Connection.env s))) c names
      (Connection.env s) = Some (r, w) /\
    Connection.fetch_all c names s
    = ([], Connection.State (Connection.self s) w, r).
Proof.
  destruct (fetch_enough_fuel (S (cursor_pending c (Connection.env s))) c
              names (Connection.env s) ltac:(lia)) as [[r w] E].
  exists r, w. split; [exact E|]. unfold Connection.fetch_all.
  rewrite E. reflexivity.
Qed.

(** C3.  Whatever rows [query] returns: [get] returns [None] when there is
    none, the row when there is exactly one, and raises the error of the
    source ("Multiple rows returned ...", the specification's
    MultipleRowsError) when there are two or more. *)
Theorem get_by_row_count (q : string) (ps : list value)
    (kw : gmap string value) (s : Connection.state) (evs : list event)
    (s' : Connection.state) (rows : list Row.t)
    (Hquery : Connection.query q ps kw s = (evs, s', inr rows)) :
  (rows = [] -> Connection.get q ps kw s = (evs, s', inr None)) /\
  (forall row, rows = [row] ->
     Connection.get q ps kw s = (evs, s', inr (Some row))) /\
  ((2 <= length rows)%nat ->
     Connection.get q ps kw s
     = (evs, s',
        inl (Exception "Multiple rows returned for Database.get() query"))).
Proof.
  unfold Connection.get, mbind, Connection.M_bind, Connection.bind.
  rewrite Hquery. repeat split.
  - intros ->. simpl. by rewrite app_nil_r.
  - intros row ->. simpl. by rewrite app_nil_r.
  - intros Hlen. destruct rows as [|r0 [|r1 rest]]; simpl in Hlen; try lia.
    simpl. by rewrite app_nil_r.
Qed.

End Lookup.

Lemma get_by_row_count_witness :
  let s rows := Connection.State Stub.connected (Stub.healthy rows) in
  outcome (Connection.get "SELECT" [] ∅ (s [])) = inr None /\
  outcome (Connection.get "SELECT" [] ∅ (s [[VInt 1; VStr "ada"]]))
  = inr (Some (Connection.make_row ["id"; "name"] [VInt 1; VStr "ada"])) /\
  outcome (Connection.get "SELECT" [] ∅
             (s [[VInt 1; VStr "ada"]; [VInt 2; VStr "bob"]]))
  = inl (Exception "Multiple rows returned for Database.get() query").
Proof.
  intros s. split; [|split].
  - destruct (get_by_row_count (D := Stub.driver) "SELECT" [] ∅ (s [])
                _ _ _ eq_refl) as (H0 & _ & _).
    rewrite (H0 eq_refl). reflexivity.
  - destruct (get_by_row_count (D := Stub.driver) "SELECT" [] ∅
                (s [[VInt 1; VStr "ada"]]) _ _ _ eq_refl) as (_ & H1 & _).
    rewrite (H1 _ eq_refl). reflexivity.
  - destruct (get_by_row_count (D := Stub.driver) "SELECT" [] ∅
                (s [[VInt 1; VStr "ada"]; [VInt 2; VStr "bob"]])
                _ _ _ eq_refl) as (_ & _ & H2).
    rewrite (H2 ltac:(simpl; lia)). reflexivity.
Defined.

(** ** What the execute family returns *)

Section Returned.

Context `{D : Driver}.

(** C6.  Once the cursor [c] is acquired: when the statement has run, the
    operations of the last-row-id family ([execute], [insert],
    [execute_lastrowid]) return the value the cursor reports as
    [lastrowid] and those of the row-count family ([execute_rowcount],
    [update]) the value it reports as [rowcount]; when the batch has run,
    [executemany], [executemany_lastrowid] and [insertmany] return the
    cursor's [lastrowid], [executemany_rowcount] and [updatemany] its
    [rowcount].  The values are read right after the statement, before the
    cursor is closed, and come back as they are. *)
Theorem cursor_values_returned (q : string) (ps : list value)
    (kw : gmap string value) (pss : list params) (s : Connection.state)
    (e1 : list event) (s1 : Connection.state) (c : cursor)
    (Hcursor : Connection._cursor s = (e1, s1, inr c)) :
  (forall e2 s2,
     Connection._execute c q ps kw s1 = (e2, s2, inr tt) ->
     let id := cursor_lastrowid c (Connection.env s2) in
     let n := cursor_rowcount c (Connection.env s2) in
     outcome (Connection.execute q ps kw s) = inr id /\
     outcome (Connection.insert q ps kw s) = inr id /\
     outcome (Connection.execute_lastrowid q ps kw s) = inr id /\
     outcome (Connection.execute_rowcount q ps kw s) = inr n /\
     outcome (Connection.update q ps kw s) = inr n) /\
  (forall w2,
     cursor_executemany c q pss (Connection.env s1) = (inr tt, w2) ->
     let id := cursor_lastrowid c w2 in
     let n := cursor_rowcount c w2 in
     outcome (Connection.executemany q pss s) = inr id /\
     outcome (Connection.insertmany q pss s) = inr id /\
     outcome (Connection.executemany_lastrowid q pss s) = inr id /\
     outcome (Connection.executemany_rowcount q pss s) = inr n /\
     outcome (Connection.updatemany q pss s) = inr n).
Proof.
  split.
  - intros e2 s2 Hexec id n.
    unfold Connection.execute, Connection.insert, Connection.update,
      Connection.execute_lastrowid, Connection.execute_rowcount, outcome.
    unfold mbind at 1 3 5 7 9. unfold Connection.M_bind, Connection.bind.
    rewrite Hcursor.
    unfold Connection.try_finally, mbind, Connection.M_bind, Connection.bind.
    rewrite Hexec. repeat split; reflexivity.
  - intros w2 Hexec id n.
    unfold Connection.executemany, Connection.insertmany,
      Connection.updatemany, Connection.executemany_lastrowid,
      Connection.executemany_rowcount, outcome.
    unfold mbind at 1 4 7 10 13. unfold Connection.M_bind, Connection.bind.
    rewrite Hcursor.
    unfold_M. simpl. rewrite Hexec. repeat split; reflexivity.
Qed.

End Returned.

Lemma cursor_values_returned_witness :
  let s := Connection.State Stub.connected
             (Stub.World 1000%float 1%float [] 0 None None None []
                (VInt 42) (VInt 1)) in
  (outcome (Connection.execute "INSERT" [VStr "ada"] ∅ s) = inr (VInt 42) /\
   outcome (Connection.insert "INSERT" [VStr "ada"] ∅ s) = inr (VInt 42) /\
   outcome (Connection.execute_lastrowid "INSERT" [VStr "ada"] ∅ s)
   = inr (VInt 42) /\
   outcome (Connection.execute_rowcount "INSERT" [VStr "ada"] ∅ s)
   = inr (VInt 1) /\
   outcome (Connection.update "INSERT" [VStr "ada"] ∅ s) = inr (VInt 1)) /\
  (outcome (Connection.executemany "INSERT" [PTuple [VStr "ada"]] s)
   = inr (VInt 42) /\
   outcome (Connection.insertmany "INSERT" [PTuple [VStr "ada"]] s)
   = inr (VInt 42) /\
   outcome (Connection.executemany_lastrowid "INSERT" [PTuple [VStr "ada"]] s)
   = inr (VInt 42) /\
   outcome (Connection.executemany_rowcount "INSERT" [PTuple [VStr "ada"]] s)
   = inr (VInt 1) /\
   outcome (Connection.updatemany "INSERT" [PTuple [VStr "ada"]] s)
   = inr (VInt 1)).
Proof.
  intros s.
  destruct (cursor_values_returned (D := Stub.driver) "INSERT" [VStr "ada"]
              ∅ [PTuple [VStr "ada"]] s _ _ _ eq_refl) as [Hone Hmany].
  split.
  - exact (Hone _ _ eq_refl).
  - exact (Hmany _ eq_refl).
Defined.

(** ** The shape of the operations *)

#[local] Arguments Connection.fetch : simpl never.

(** Unfolds the combinators of the monad. *)
Ltac unfold_bind :=
  unfold Connection.try_finally, Connection.try_except, Connection.close_cursor,
    Connection.logging_error, mbind, Connection.M_bind, Connection.bind,
    Connection.ret, Connection.raise, Connection.attr, Connection.set__db,
    Connection.emit, Connection.call, Connection.call_total,
    Connection.read.

(** Unfolds an operation of either family to its body. *)
Ltac unfold_op :=
  unfold run_single, run_batch, answering, Connection.gen_next,
    Connection.iter, Connection.get, Connection.update,
    Connection.updatemany, Connection.insert, Connection.insertmany,
    Connection.execute, Connection.executemany, Connection.query,
    Connection.execute_lastrowid, Connection.execute_rowcount,
    Connection.executemany_lastrowid, Connection.executemany_rowcount.

(** Unfolds the outermost binds until the equation [H], on the first
    computation of the sequence, rewrites. *)
Ltac step_to H :=
  first
    [ rewrite H
    | unfold mbind at 1, Connection.M_bind, Connection.bind at 1; step_to H ].

Section Shape.

Context `{D : Driver}.

(** Acquiring a cursor is [_ensure_connected], then at most the cursor
    itself. *)
Lemma acquire_events (m : single) (s : Connection.state) :
  match acquire m s with
  | (e1, s1, inl x) =>
      e1 = events (Connection._ensure_connected s) /\
      (forall y, outcome (Connection._ensure_connected s) = inl y ->
         (e1, s1, x) = (events (Connection._ensure_connected s),
                        final (Connection._ensure_connected s), y))
  | (e1, s1, inr c) =>
      e1 = events (Connection._ensure_connected s) ++ [EvCursorOpen c]
  end.
Proof.
  unfold events, final, outcome.
  destruct m; unfold acquire, Connection._cursor; unfold_bind;
    destruct (Connection._ensure_connected s) as [[e0 s0] [x|[]]]; simpl;
    try (split; [done|by intros y [= ->]]);
    try destruct (Connection._db (Connection.self s0)) as [h|]; simpl;
    try match goal with
        | |- context [db_cursor ?h ?w] =>
            destruct (db_cursor h w) as [[x|c] w1]
        | |- context [MySQLCursor ?h ?w] =>
            destruct (MySQLCursor h w) as [[x|c] w1]
        end; simpl; rewrite ?app_nil_r; try done; split; done.
Qed.

(** [_execute], case by case. *)
Lemma execute_run (c : cursor) (q : string) (ps : list value)
    (kw : gmap string value) (s : Connection.state) :
  Connection._execute c q ps kw s
  = match cursor_execute c q (kw_or kw ps) (Connection.env s) with
    | (inr u, w) =>
        ([EvExecute c q (kw_or kw ps)],
         Connection.State (Connection.self s) w, inr u)
    | (inl x, w) =>
        if is_OperationalError x then
          match Connection._db (Connection.self s) with
          | Some h =>
              ([EvExecute c q (kw_or kw ps);
                EvLogError "error connecting to MySQL on %s"
                  (Connection.host (Connection.self s)) false;
                EvDbClose h],
               Connection.State
                 (Connection.with_db None (Connection.self s))
                 (db_close h w), inl x)
          | None =>
              ([EvExecute c q (kw_or kw ps);
                EvLogError "error connecting to MySQL on %s"
                  (Connection.host (Connection.self s)) false],
               Connection.State (Connection.self s) w, inl x)
          end
        else
          ([EvExecute c q (kw_or kw ps)],
           Connection.State (Connection.self s) w, inl x)
    end.
Proof.
  unfold Connection._execute, Connection.close. unfold_bind. simpl.
  destruct (cursor_execute c q (kw_or kw ps) (Connection.env s))
    as [[x|u] w]; simpl; [|done].
  destruct (is_OperationalError x); simpl; [|done].
  destruct (Connection._db (Connection.self s)); done.
Qed.

(** When no cursor is acquired the operation ends there. *)
Lemma single_acquire_fails (m : single) (q : string) (ps : list value)
    (kw : gmap string value) (s : Connection.state) (e1 : list event)
    (s1 : Connection.state) (x : Exn) :
  acquire m s = (e1, s1, inl x) ->
  run_single m q ps kw s = (e1, s1, inl x).
Proof.
  destruct m; unfold acquire; intros Ha; unfold_op; step_to Ha; reflexivity.
Qed.

(** When the statement raises, the cursor is closed and the exception
    leaves the operation as it is. *)
Lemma single_execute_raises (m : single) (q : string) (ps : list value)
    (kw : gmap string value) (s : Connection.state) (e1 e2 : list event)
    (s1 s2 : Connection.state) (c : cursor) (x : Exn) :
  acquire m s = (e1, s1, inr c) ->
  Connection._execute c q ps kw s1 = (e2, s2, inl x) ->
  run_single m q ps kw s
  = (e1 ++ e2 ++ [EvCursorClose c],
     Connection.State (Connection.self s2)
       (cursor_close c (Connection.env s2)), inl x).
Proof.
  destruct m; unfold acquire; intros Ha He; unfold_op; step_to Ha;
    unfold Connection.try_finally; step_to He;
    unfold_bind; simpl; rewrite ?app_nil_r; reflexivity.
Qed.

End Shape.

Section Events.

Context `{D : Driver}.

(** When the statement has run, nothing more is emitted until the cursor
    is closed; only [iter], suspended at a row, leaves it open. *)
Lemma single_execute_returns (m : single) (q : string) (ps : list value)
    (kw : gmap string value) (s : Connection.state) (e1 e2 : list event)
    (s1 s2 : Connection.state) (c : cursor) (u : unit) :
  acquire m s = (e1, s1, inr c) ->
  Connection._execute c q ps kw s1 = (e2, s2, inr u) ->
  exists tail,
    events (run_single m q ps kw s) = e1 ++ e2 ++ tail /\
    (tail = [EvCursorClose c] \/ (m = Siter /\ tail = [])).
Proof.
  unfold events.
  destruct m; unfold acquire; intros Ha He; unfold_op; step_to Ha;
    unfold Connection.try_finally, Connection.iter_loop; step_to He;
    unfold Connection.column_names, Connection.fetch_all; unfold_bind; simpl;
    repeat case_match; simplify_eq/=; rewrite ?app_nil_r;
    first [ by eexists; split; [reflexivity|auto]
          | by exists []; rewrite app_nil_r; auto ].
Qed.

(** The events of an operation of the single-statement family. *)
Lemma single_events (m : single) (q : string) (ps : list value)
    (kw : gmap string value) (s : Connection.state) :
  match acquire m s with
  | (e1, s1, inl x) => run_single m q ps kw s = (e1, s1, inl x)
  | (e1, s1, inr c) =>
      exists tail,
        events (run_single m q ps kw s)
        = e1 ++ events (Connection._execute c q ps kw s1) ++ tail /\
        (tail = [EvCursorClose c] \/ (m = Siter /\ tail = []))
  end.
Proof.
  destruct (acquire m s) as [[e1 s1] [x|c]] eqn:Ha.
  - by apply single_acquire_fails.
  - destruct (Connection._execute c q ps kw s1) as [[e2 s2] [x|u]] eqn:He.
    + rewrite (single_execute_raises m q ps kw s _ _ _ _ c x Ha He).
      exists [EvCursorClose c]. auto.
    + by apply (single_execute_returns m q ps kw s e1 e2 s1 s2 c u).
Qed.

End Events.

(** ** Binding the parameters *)

Section Binding.

Context `{D : Driver}.

Lemma kw_or_named (kw : gmap string value) (ps : list value) :
  kw <> ∅ -> kw_or kw ps = PDict kw.
Proof. intros H. unfold kw_or. by rewrite bool_decide_eq_false_2. Qed.

Lemma kw_or_empty (ps : list value) : kw_or ∅ ps = PTuple ps.
Proof. reflexivity. Qed.

Lemma kw_or_dict (kw kw' : gmap string value) (ps : list value) :
  kw_or kw ps = PDict kw' -> kw' = kw /\ kw <> ∅.
Proof.
  unfold kw_or. case_bool_decide; [discriminate|].
  intros [= ->]. auto.
Qed.

(** [reconnect] opens no cursor, runs no statement and logs nothing. *)
Lemma reconnect_quiet (s : Connection.state) :
  executes (events (Connection.reconnect s)) = [] /\
  opened (events (Connection.reconnect s)) = [] /\
  cursor_trace (events (Connection.reconnect s)) = [] /\
  logged (events (Connection.reconnect s)) = [].
Proof.
  destruct s as [[h d m so db a t] w]. unfold events.
  unfold Connection.reconnect, Connection.close. unfold_bind. simpl.
  destruct db as [h0|]; simpl;
    match goal with
    | |- context [Connect a ?w0] => destruct (Connect a w0) as [[x|h1] w1]
    end; simpl; try done;
    destruct (set_autocommit h1 true w1) as [[x|u] w2]; done.
Qed.

(** Neither does [_ensure_connected]. *)
Lemma ensure_connected_quiet (s : Connection.state) :
  executes (events (Connection._ensure_connected s)) = [] /\
  opened (events (Connection._ensure_connected s)) = [] /\
  cursor_trace (events (Connection._ensure_connected s)) = [] /\
  logged (events (Connection._ensure_connected s)) = [].
Proof.
  assert (Hr : forall s0 : Connection.state,
             let r := Connection.reconnect s0 in
             executes r.1.1 = [] /\ opened r.1.1 = [] /\
             cursor_trace r.1.1 = [] /\ logged r.1.1 = [])
    by apply reconnect_quiet.
  destruct s as [[h d m so db a t] w]. unfold events.
  unfold Connection._ensure_connected, Connection.needs_reconnect.
  unfold_bind. unfold Connection.set__last_use_time. simpl.
  destruct db as [h0|]; simpl.
  - destruct (time_time w) as [now w1]; simpl.
    destruct (PrimFloat.ltb m (PrimFloat.sub now t)); simpl.
    + match goal with
      | |- context [Connection.reconnect ?s0] =>
          specialize (Hr s0); simpl in Hr;
          destruct (Connection.reconnect s0) as [[e0 s1] [x|[]]]
      end; simpl in *; [done|].
      destruct (time_time (Connection.env s1)); simpl.
      by rewrite !app_nil_r.
    + by destruct (time_time w1).
  - match goal with
    | |- context [Connection.reconnect ?s0] =>
        specialize (Hr s0); simpl in Hr;
        destruct (Connection.reconnect s0) as [[e0 s1] [x|[]]]
    end; simpl in *; [done|].
    destruct (time_time (Connection.env s1)); simpl.
    by rewrite !app_nil_r.
Qed.

(** [_execute] hands the statement to the cursor once, bound with
    [kwparameters or parameters], and touches no cursor's life. *)
Lemma execute_projections (c : cursor) (q : string) (ps : list value)
    (kw : gmap string value) (s : Connection.state) :
  executes (events (Connection._execute c q ps kw s))
  = [(c, q, kw_or kw ps)] /\
  opened (events (Connection._execute c q ps kw s)) = [] /\
  cursor_trace (events (Connection._execute c q ps kw s)) = [].
Proof.
  rewrite execute_run. unfold events.
  repeat case_match; done.
Qed.

(** Every cursor that an operation of the single-statement family
    acquires runs the statement once, bound with
    [kwparameters or parameters]. *)
Lemma single_executes (m : single) (q : string) (ps : list value)
    (kw : gmap string value) (s : Connection.state) :
  executes (events (run_single m q ps kw s))
  = (fun c => (c, q, kw_or kw ps)) <$> opened (events (run_single m q ps kw s)).
Proof.
  pose proof (single_events m q ps kw s) as Hs.
  pose proof (acquire_events m s) as Ha.
  pose proof (ensure_connected_quiet s) as (Hx & Ho & _).
  destruct (acquire m s) as [[e1 s1] [x|c]].
  - rewrite Hs. destruct Ha as [-> _]. unfold events at 1 3. simpl.
    by rewrite Hx, Ho.
  - destruct Hs as (tail & -> & Ht). subst e1.
    destruct (execute_projections c q ps kw s1) as (Ex & Eo & _).
    unfold executes, opened in *. rewrite !omap_app, Hx, Ho, Ex, Eo.
    by destruct Ht as [->|[_ ->]].
Qed.

(** With named parameters, the positional ones play no part. *)
Lemma positional_ignored (m : single) (q : string) (ps ps' : list value)
    (kw : gmap string value) (s : Connection.state) :
  kw <> ∅ -> run_single m q ps kw s = run_single m q ps' kw s.
Proof.
  intros Hkw. destruct m; unfold_op; unfold Connection._execute;
    rewrite (kw_or_named kw ps Hkw), (kw_or_named kw ps' Hkw); reflexivity.
Qed.

(** C7.  For every operation of the single-statement family ([query],
    [get], [execute], [execute_lastrowid], [execute_rowcount], [update],
    [insert], [iter]): when named parameters are supplied, every cursor the
    operation acquires runs the statement bound with them, and the whole
    outcome is the same whatever the positional parameters are; when none
    is supplied, the statement is bound with the positional parameters. *)
Theorem named_parameters_win (m : single) (q : string) (ps : list value)
    (kw : gmap string value) (s : Connection.state) :
  (kw <> ∅ ->
     executes (events (run_single m q ps kw s))
     = (fun c => (c, q, PDict kw)) <$> opened (events (run_single m q ps kw s))
     /\ forall ps', run_single m q ps' kw s = run_single m q ps kw s) /\
  (kw = ∅ ->
     executes (events (run_single m q ps kw s))
     = (fun c => (c, q, PTuple ps))
         <$> opened (events (run_single m q ps kw s))).
Proof.
  split.
  - intros Hkw. split.
    + rewrite single_executes, (kw_or_named kw ps Hkw). reflexivity.
    + intros ps'. by apply positional_ignored.
  - intros ->. rewrite single_executes, kw_or_empty. reflexivity.
Qed.

(** C10.  For every operation of the single-statement family: with an
    empty named mapping the statement is bound with the positional tuple;
    and a statement is bound with a named mapping only when that mapping is
    the one supplied and is not empty. *)
Theorem empty_named_falls_back (m : single) (q : string) (ps : list value)
    (s : Connection.state) :
  executes (events (run_single m q ps ∅ s))
  = (fun c => (c, q, PTuple ps)) <$> opened (events (run_single m q ps ∅ s))
  /\
  forall kw c q' kw',
    (c, q', PDict kw') ∈ executes (events (run_single m q ps kw s)) ->
    kw' = kw /\ kw <> ∅.
Proof.
  split.
  - rewrite single_executes, kw_or_empty. reflexivity.
  - intros kw c q' kw'. rewrite single_executes.
    intros Hin. apply list_elem_of_fmap in Hin as (c' & Heq & _).
    injection Heq as _ _ Hb. symmetry in Hb. by apply kw_or_dict in Hb.
Qed.

End Binding.

Lemma named_parameters_win_witness :
  let s := Connection.State Stub.connected (Stub.healthy []) in
  let kw : gmap string value := {["id" := VInt 7]} in
  executes (events (run_single Squery "SELECT" [VInt 1] kw s))
  = [(0%nat, "SELECT", PDict kw)] /\
  run_single Squery "SELECT" [VInt 2; VInt 3] kw s
  = run_single Squery "SELECT" [VInt 1] kw s /\
  executes (events (run_single Squery "SELECT" [VInt 1] ∅ s))
  = [(0%nat, "SELECT", PTuple [VInt 1])].
Proof.
  intros s kw.
  destruct (named_parameters_win (D := Stub.driver) Squery "SELECT" [VInt 1]
              kw s) as [Hnamed _].
  destruct (named_parameters_win (D := Stub.driver) Squery "SELECT" [VInt 1]
              ∅ s) as [_ Hnone].
  destruct Hnamed as [Hx Hps]; [vm_compute; discriminate|].
  split; [|split].
  - rewrite Hx. reflexivity.
  - apply Hps.
  - rewrite (Hnone eq_refl). reflexivity.
Defined.

(** ** Operational errors *)

Section OperationalErrors.

Context `{D : Driver}.

(** The batch operations, case by case: [executemany] is called on the
    cursor directly, and whatever it raises leaves through the [finally]
    clause only. *)
Lemma batch_run (m : batch) (q : string) (pss : list params)
    (s : Connection.state) :
  run_batch m q pss s
  = match Connection._cursor s with
    | (e1, s1, inl x) => (e1, s1, inl x)
    | (e1, s1, inr c) =>
        match cursor_executemany c q pss (Connection.env s1) with
        | (r, w) =>
            (e1 ++ [EvExecutemany c q pss; EvCursorClose c],
             Connection.State (Connection.self s1) (cursor_close c w),
             match r with
             | inl x => inl x
             | inr _ => inr (Value (batch_value m c w))
             end)
        end
    end.
Proof.
  destruct m; unfold_op; unfold mbind at 1, Connection.M_bind,
    Connection.bind at 1;
    destruct (Connection._cursor s) as [[e1 s1] [x|c]]; try reflexivity;
    unfold_bind; simpl;
    destruct (cursor_executemany c q pss (Connection.env s1)) as [[x|u] w];
    reflexivity.
Qed.

(** The single-statement family does what the specification says of an
    operational error: once the cursor is acquired, if the driver raises
    [OperationalError] from [execute], the failure is logged, the handle is
    closed and dropped, the statement is not run again, and the same
    exception reaches the caller. *)
Lemma single_operational_error (m : single) (q : string) (ps : list value)
    (kw : gmap string value) (s : Connection.state) (e1 : list event)
    (s1 : Connection.state) (c : cursor) (msg : string) (w : world) :
  acquire m s = (e1, s1, inr c) ->
  cursor_execute c q (kw_or kw ps) (Connection.env s1)
  = (inl (OperationalError msg), w) ->
  outcome (run_single m q ps kw s) = inl (OperationalError msg) /\
  Connection._db (Connection.self (final (run_single m q ps kw s))) = None /\
  logged (events (run_single m q ps kw s))
  = [("error connecting to MySQL on %s", Connection.host (Connection.self s1))]
  /\
  handle_closes (events (run_single m q ps kw s))
  = handle_closes e1
    ++ match Connection._db (Connection.self s1) with
       | Some h => [h]
       | None => []
       end /\
  executes (events (run_single m q ps kw s)) = [(c, q, kw_or kw ps)].
Proof.
  intros Ha Hx.
  pose proof (execute_run c q ps kw s1) as He. rewrite Hx in He. simpl in He.
  pose proof (acquire_events m s) as Hacq. rewrite Ha in Hacq.
  pose proof (ensure_connected_quiet s) as (Qx & _ & _ & Ql).
  assert (Hl : logged e1 = [] /\ executes e1 = []).
  { subst e1. unfold logged, executes in *. by rewrite !omap_app, Ql, Qx. }
  destruct Hl as [Hl Hxs].
  destruct (Connection._db (Connection.self s1)) as [h|] eqn:Hdb;
    rewrite (single_execute_raises m q ps kw s _ _ _ _ c _ Ha He);
    unfold outcome, final, events, logged, handle_closes, executes in *;
    simpl; rewrite !omap_app, ?Hl, ?Hxs; simpl; rewrite ?app_nil_r; done.
Qed.

(** The batch family does not: the exception reaches the caller, but the
    handle stays and nothing is logged. *)
Lemma batch_error_keeps_handle (m : batch) (q : string) (pss : list params)
    (s : Connection.state) (e1 : list event) (s1 : Connection.state)
    (c : cursor) (x : Exn) (w : world) :
  Connection._cursor s = (e1, s1, inr c) ->
  cursor_executemany c q pss (Connection.env s1) = (inl x, w) ->
  outcome (run_batch m q pss s) = inl x /\
  Connection.self (final (run_batch m q pss s)) = Connection.self s1 /\
  logged (events (run_batch m q pss s)) = logged e1 /\
  handle_closes (events (run_batch m q pss s)) = handle_closes e1.
Proof.
  intros Hc Hx. rewrite batch_run, Hc, Hx.
  unfold outcome, final, events, logged, handle_closes. simpl.
  rewrite !omap_app. simpl. by rewrite !app_nil_r.
Qed.

End OperationalErrors.

(** C2, on the code.  The driver reports "MySQL server has gone away" as an
    [OperationalError] to a connected object.  [execute_rowcount] logs,
    closes handle 7 and drops it, and raises the error; [executemany_rowcount]
    raises the error but logs nothing, closes no handle and keeps handle 7,
    so that the next operation will not reconnect. *)
Theorem executemany_keeps_handle :
  let gone := OperationalError "MySQL server has gone away" in
  let s := Connection.State Stub.connected
             (Stub.World 1000%float 1%float [] 0 (Some gone) (Some gone)
                None [] VNone VNone) in
  let one := Connection.execute_rowcount "INSERT" [VInt 1] ∅ s in
  let many := Connection.executemany_rowcount "INSERT" [PTuple [VInt 1]] s in
  (outcome one = inl gone /\
   Connection._db (Connection.self (final one)) = None /\
   logged (events one) = [("error connecting to MySQL on %s", "db.local")] /\
   handle_closes (events one) = [7%nat]) /\
  (outcome many = inl gone /\
   Connection._db (Connection.self (final many)) = Some 7%nat /\
   logged (events many) = [] /\
   handle_closes (events many) = [] /\
   spec_stale (final many) = false).
Proof. vm_compute. repeat split; reflexivity. Qed.

(** ** Failing to connect *)

Section ConnectFailure.

Context `{D : Driver}.

Lemma acquire_after_ensure (m : single) (s : Connection.state)
    (e : list event) (s' : Connection.state) (x : Exn) :
  Connection._ensure_connected s = (e, s', inl x) ->
  acquire m s = (e, s', inl x).
Proof.
  intros H. destruct m; unfold acquire, Connection._cursor; step_to H;
    reflexivity.
Qed.

(** What [_ensure_connected] raises, every operation raises. *)
Lemma ensure_failure_propagates (s : Connection.state) (e : list event)
    (s' : Connection.state) (x : Exn) :
  Connection._ensure_connected s = (e, s', inl x) ->
  (forall m q ps kw, run_single m q ps kw s = (e, s', inl x)) /\
  (forall m q pss, run_batch m q pss s = (e, s', inl x)).
Proof.
  intros H. split.
  - intros m q ps kw. apply single_acquire_fails.
    by apply acquire_after_ensure.
  - intros m q pss. rewrite batch_run.
    change Connection._cursor with (acquire Squery).
    by rewrite (acquire_after_ensure Squery s e s' x H).
Qed.

(** When the condition for a reconnect holds and [reconnect] raises,
    [_ensure_connected] raises the same. *)
Lemma stale_reconnect_raises (s : Connection.state) (x : Exn) :
  spec_stale s = true ->
  outcome (Connection.reconnect (before_reconnect s)) = inl x ->
  Connection._ensure_connected s
  = (events (Connection.reconnect (before_reconnect s)),
     final (Connection.reconnect (before_reconnect s)), inl x).
Proof.
  destruct s as [[h d m so db a t] w].
  unfold spec_stale, before_reconnect, outcome, events, final. simpl.
  unfold Connection._ensure_connected, Connection.needs_reconnect.
  unfold_bind. simpl.
  destruct db as [h0|]; simpl.
  - destruct (time_time w) as [now w1]; simpl. intros -> Hr.
    destruct (Connection.reconnect _) as [[e1 s1] [y|[]]]; simpl in *;
      congruence.
  - intros _ Hr.
    destruct (Connection.reconnect _) as [[e1 s1] [y|[]]]; simpl in *;
      congruence.
Qed.

(** Every operation begins with [_ensure_connected]. *)
Lemma operations_begin_with_ensure (s : Connection.state) :
  (forall m q ps kw, exists rest,
     events (run_single m q ps kw s)
     = events (Connection._ensure_connected s) ++ rest) /\
  (forall m q pss, exists rest,
     events (run_batch m q pss s)
     = events (Connection._ensure_connected s) ++ rest).
Proof.
  split.
  - intros m q ps kw.
    pose proof (single_events m q ps kw s) as Hs.
    pose proof (acquire_events m s) as Ha.
    destruct (acquire m s) as [[e1 s1] [x|c]].
    + rewrite Hs. destruct Ha as [-> _]. exists []. by rewrite app_nil_r.
    + destruct Hs as (tail & -> & _). subst e1. rewrite <- app_assoc. eauto.
  - intros m q pss. rewrite batch_run.
    pose proof (acquire_events Squery s) as Ha. simpl in Ha.
    destruct (Connection._cursor s) as [[e1 s1] [x|c]].
    + destruct Ha as [-> _]. exists []. by rewrite app_nil_r.
    + destruct (cursor_executemany c q pss (Connection.env s1)) as [r w].
      subst e1. unfold events at 1. simpl. rewrite <- app_assoc. eauto.
Qed.

(** Without a handle, [_ensure_connected] begins by calling [reconnect],
    which calls [Connect] with the stored arguments. *)
Lemma ensure_connected_absent (s : Connection.state) :
  Connection._db (Connection.self s) = None ->
  exists rest,
    events (Connection._ensure_connected s)
    = EvCall "reconnect" :: EvConnect (Connection._db_args (Connection.self s))
        :: rest.
Proof.
  destruct s as [[h d m so db a t] w]. simpl. intros ->. unfold events.
  unfold_M. simpl. repeat case_match; simplify_eq/=; eauto.
Qed.

(** C9.  When the driver's [Connect] raises during construction, the
    constructor logs the failure and returns an object without a handle.
    On that object, in whatever world, every operation begins by calling
    [reconnect], which calls [Connect] again with the same arguments.  And
    for any object, when the condition for a reconnect holds and
    [reconnect] raises, every operation raises that exception to its
    caller. *)
Theorem connect_failure_at_construction (host database : string)
    (user password : option string) (idle : float) (timeout : value)
    (tz : string) (w : world) (args : gmap string value)
    (sock : option value) (now : float) (w1 : world) (e : Exn) (w2 : world)
    (Hargs : Connection.host_args host
               (Connection.base_args database user password timeout tz)
             = inr (args, sock))
    (Hclock : time_time w = (now, w1))
    (Hconnect : Connect args w1 = (inl e, w2)) :
  let o := Connection.Obj host database idle sock None args now in
  Connection.__init__ host database user password idle timeout tz w
  = ([EvCall "reconnect"; EvConnect args;
      EvLogError "Cannot connect to MySQL on %s" host true], w2, inr o) /\
  (forall w',
     (forall m q ps kw, exists rest,
        events (run_single m q ps kw (Connection.State o w'))
        = EvCall "reconnect" :: EvConnect args :: rest) /\
     (forall m q pss, exists rest,
        events (run_batch m q pss (Connection.State o w'))
        = EvCall "reconnect" :: EvConnect args :: rest)) /\
  (forall s x,
     spec_stale s = true ->
     outcome (Connection.reconnect (before_reconnect s)) = inl x ->
     (forall m q ps kw, outcome (run_single m q ps kw s) = inl x) /\
     (forall m q pss, outcome (run_batch m q pss s) = inl x)).
Proof.
  intros o. split; [|split].
  - unfold Connection.__init__. rewrite Hargs, Hclock.
    unfold Connection.try_except, Connection.reconnect, Connection.close.
    unfold_bind. simpl. rewrite Hconnect. reflexivity.
  - intros w'.
    destruct (ensure_connected_absent (Connection.State o w') eq_refl)
      as [rest0 H0].
    destruct (operations_begin_with_ensure (Connection.State o w'))
      as [Hs Hb].
    split.
    + intros m q ps kw. destruct (Hs m q ps kw) as [rest ->].
      rewrite H0. simpl. eauto.
    + intros m q pss. destruct (Hb m q pss) as [rest ->].
      rewrite H0. simpl. eauto.
  - intros s x Hstale Hr.
    pose proof (stale_reconnect_raises s x Hstale Hr) as He.
    destruct (ensure_failure_propagates s _ _ x He) as [Hs Hb].
    split.
    + intros m q ps kw. by rewrite Hs.
    + intros m q pss. by rewrite Hb.
Qed.

End ConnectFailure.

Lemma connect_failure_at_construction_witness :
  let refused := OperationalError "Can't connect to MySQL server" in
  let w := Stub.World 1000%float 1%float [Some refused; Some refused] 0
             None None None [] VNone VNone in
  match Connection.__init__ (D := Stub.driver) "db.local:3307" "shop" None
          None 28800%float (VInt 4) "+0:00" w with
  | (evs, w2, inr o) =>
      logged evs = [("Cannot connect to MySQL on %s", "db.local:3307")] /\
      Connection._db o = None /\
      connects
        (events (run_single Squery "SELECT" [] ∅ (Connection.State o w2)))
      = [Connection._db_args o] /\
      outcome (run_single Squery "SELECT" [] ∅ (Connection.State o w2))
      = inl refused
  | _ => False
  end.
Proof.
  intros refused w.
  destruct (connect_failure_at_construction (D := Stub.driver)
              "db.local:3307" "shop" None None 28800%float (VInt 4) "+0:00"
              w _ _ _ _ refused _ eq_refl eq_refl eq_refl)
    as (Hinit & Hretry & Hprop).
  rewrite Hinit. split; [reflexivity|]. split; [reflexivity|].
  split; [reflexivity|].
  apply Hprop; reflexivity.
Defined.

(** ** Closing the cursor *)

#[local] Arguments cursor_trace : simpl never.

(** [unfold_bind] in a hypothesis. *)
Ltac unfold_bind_in H :=
  unfold Connection.try_finally, Connection.try_except, Connection.close_cursor,
    Connection.logging_error, mbind, Connection.M_bind, Connection.bind,
    Connection.ret, Connection.raise, Connection.attr, Connection.set__db,
    Connection.emit, Connection.call, Connection.call_total,
    Connection.read in H.

Section CursorLife.

Context `{D : Driver}.

Lemma cursor_trace_app (e1 e2 : list event) :
  cursor_trace (e1 ++ e2) = cursor_trace e1 ++ cursor_trace e2.
Proof. apply omap_app. Qed.

(** Acquiring leaves the trace of the one cursor acquired. *)
Lemma acquire_trace (m : single) (s : Connection.state) :
  match acquire m s with
  | (e1, _, inl _) => cursor_trace e1 = []
  | (e1, _, inr c) => cursor_trace e1 = [Acquired c]
  end.
Proof.
  pose proof (acquire_events m s) as Ha.
  pose proof (ensure_connected_quiet s) as (_ & _ & Qt & _).
  destruct (acquire m s) as [[e1 s1] [x|c]].
  - by destruct Ha as [-> _].
  - subst e1. by rewrite cursor_trace_app, Qt.
Qed.

(** The operations that return a result, a row or a value close the cursor
    they acquired, once, on every path. *)
Lemma single_closed_once (m : single) (q : string) (ps : list value)
    (kw : gmap string value) (s : Connection.state) :
  m <> Siter -> closed_exactly_once (events (run_single m q ps kw s)).
Proof.
  intros Hm.
  pose proof (single_events m q ps kw s) as Hs.
  pose proof (acquire_trace m s) as Ha.
  destruct (acquire m s) as [[e1 s1] [x|c]].
  - rewrite Hs. by left.
  - destruct Hs as (tail & -> & [->|[? _]]); [|done].
    destruct (execute_projections c q ps kw s1) as (_ & _ & Et).
    right. exists c. by rewrite !cursor_trace_app, Ha, Et.
Qed.

Lemma batch_closed_once (m : batch) (q : string) (pss : list params)
    (s : Connection.state) :
  closed_exactly_once (events (run_batch m q pss s)).
Proof.
  rewrite batch_run.
  pose proof (acquire_trace Squery s) as Ha. simpl in Ha.
  destruct (Connection._cursor s) as [[e1 s1] [x|c]].
  - by left.
  - destruct (cursor_executemany c q pss (Connection.env s1)) as [r w].
    right. exists c. unfold events. simpl.
    by rewrite cursor_trace_app, Ha.
Qed.

Lemma gen_next_trace (g : Connection.generator) (tr : list cursor_step)
    (s : Connection.state) (e : list event) (s' : Connection.state)
    (g' : Connection.generator) (r : Exn + option Row.t) :
  Connection.gen_next g s = (e, s', (g', r)) ->
  generator_trace g tr -> generator_trace g' (tr ++ cursor_trace e).
Proof.
  destruct g as [q ps kw|c names|]; simpl.
  - intros H ->. simpl.
    pose proof (acquire_trace Siter s) as Ha. unfold acquire in Ha.
    destruct ((Connection._ensure_connected ;; _) s) as [[e1 s1] [x|c]];
      [injection H as <- <- <- <-; by left|].
    unfold mbind at 1, Connection.M_bind, Connection.bind at 1 in H.
    destruct (execute_projections c q ps kw s1) as (_ & _ & Et).
    unfold events in Et.
    destruct (Connection._execute c q ps kw s1) as [[e2 s2] [x|[]]];
      simpl in *.
    + unfold_bind_in H. simpl in H. injection H as <- <- <- <-.
      right. exists c. by rewrite !cursor_trace_app, Ha, Et.
    + unfold Connection.column_names, Connection.iter_loop in H.
      unfold_bind_in H. simpl in H.
      destruct (cursor_description c (Connection.env s2)) as [ds|];
        simpl in H.
      * destruct (cursor_next c (Connection.env s2)) as [[x|[row|]] w];
          simpl in H; injection H as <- <- <- <-;
          rewrite !cursor_trace_app, Ha, Et; simpl; eauto.
      * injection H as <- <- <- <-. right. exists c.
        by rewrite !cursor_trace_app, Ha, Et.
  - intros H ->. unfold Connection.iter_loop in H. unfold_bind_in H.
    simpl in H.
    destruct (cursor_next c (Connection.env s)) as [[x|[row|]] w];
      simpl in H; injection H as <- <- <- <-; simpl; eauto.
  - intros [= <- <- <- <-] H. by rewrite app_nil_r.
Qed.

Lemma drive_trace (n : nat) (g : Connection.generator)
    (tr : list cursor_step) (s : Connection.state) :
  generator_trace g tr ->
  generator_trace (outcome (drive n g s))
    (tr ++ cursor_trace (events (drive n g s))).
Proof.
  revert g tr s. induction n as [|n IH]; intros g tr s Hg; simpl.
  - unfold outcome, events. simpl. by rewrite app_nil_r.
  - unfold outcome, events in *.
    destruct (Connection.gen_next g s) as [[e1 s1] [g1 r1]] eqn:Hn.
    pose proof (gen_next_trace g tr s _ _ _ _ Hn Hg) as Hstep.
    specialize (IH g1 _ s1 Hstep).
    destruct (drive n g1 s1) as [[e2 s2] g2]. simpl in *.
    by rewrite cursor_trace_app, app_assoc.
Qed.

(** A generator of [iter] that is stepped any number of times and then
    closed has closed the cursor it acquired, once, and is finished. *)
Lemma abandoned_closed_once (n : nat) (q : string) (ps : list value)
    (kw : gmap string value) (s : Connection.state) :
  closed_exactly_once (events (abandon_after n q ps kw s)) /\
  outcome (abandon_after n q ps kw s) = Connection.Finished.
Proof.
  unfold abandon_after.
  pose proof (drive_trace n (Connection.iter q ps kw) [] s eq_refl) as Hd.
  unfold outcome, events, closed_exactly_once in *.
  destruct (drive n (Connection.iter q ps kw) s) as [[e1 s1] g1].
  simpl in Hd.
  destruct g1 as [q' ps' kw'|c names|]; simpl in *.
  - rewrite app_nil_r. auto.
  - rewrite cursor_trace_app, Hd. simpl. eauto.
  - rewrite app_nil_r. auto.
Qed.

(** C4.  Every operation closes the cursor it acquired exactly once, and
    closes none when it acquired none, on every path, whatever the driver
    returns or raises: the operations of the single-statement family other
    than [iter], the batch operations, and [iter] when its generator is
    stepped any number of times (short of, up to or past its last row) and
    then closed. *)
Theorem cursor_closed_exactly_once (s : Connection.state) :
  (forall m q ps kw,
     m <> Siter -> closed_exactly_once (events (run_single m q ps kw s))) /\
  (forall m q pss, closed_exactly_once (events (run_batch m q pss s))) /\
  (forall n q ps kw,
     closed_exactly_once (events (abandon_after n q ps kw s)) /\
     outcome (abandon_after n q ps kw s) = Connection.Finished).
Proof.
  split; [|split].
  - intros m q ps kw Hm. by apply single_closed_once.
  - intros m q pss. apply batch_closed_once.
  - intros n q ps kw. apply abandoned_closed_once.
Qed.

End CursorLife.

Lemma cursor_closed_exactly_once_witness :
  let three := [[VInt 1; VStr "ada"]; [VInt 2; VStr "bob"];
                [VInt 3; VStr "eve"]] in
  let world_with (o : option Exn) :=
    Stub.World 1000%float 1%float [] 0 o o
      (Some [("id", 3); ("name", 253)]) three (VInt 42) (VInt 1) in
  let s (o : option Exn) :=
    Connection.State Stub.connected (world_with o) in
  closed_exactly_once (events (run_single Squery "SELECT" [] ∅ (s None))) /\
  closed_exactly_once
    (events (run_single Sexecute "INSERT" [] ∅
               (s (Some (IntegrityError "Duplicate entry"))))) /\
  closed_exactly_once
    (events (run_single Sexecute "INSERT" [] ∅
               (s (Some (OperationalError "MySQL server has gone away"))))) /\
  closed_exactly_once
    (events (run_batch Bexecutemany "INSERT" []
               (s (Some (OperationalError "MySQL server has gone away"))))) /\
  closed_exactly_once (events (abandon_after 1 "SELECT" [] ∅ (s None))) /\
  outcome (abandon_after 1 "SELECT" [] ∅ (s None)) = Connection.Finished.
Proof.
  intros three world_with s.
  split; [|split; [|split; [|split]]].
  - apply (cursor_closed_exactly_once (D := Stub.driver) (s None)).
    discriminate.
  - apply (cursor_closed_exactly_once (D := Stub.driver)
             (s (Some (IntegrityError "Duplicate entry")))).
    discriminate.
  - apply (cursor_closed_exactly_once (D := Stub.driver)
             (s (Some (OperationalError "MySQL server has gone away")))).
    discriminate.
  - apply (cursor_closed_exactly_once (D := Stub.driver)
             (s (Some (OperationalError "MySQL server has gone away")))).
  - apply (cursor_closed_exactly_once (D := Stub.driver) (s None)).
Defined.

(** One row taken of three, then the generator is dropped: cursor 0 was
    acquired and closed, and a second [close] does nothing. *)
Example iter_abandoned_after_one_row :
  let s := Connection.State Stub.connected
             (Stub.healthy [[VInt 1; VStr "ada"]; [VInt 2; VStr "bob"];
                            [VInt 3; VStr "eve"]]) in
  cursor_trace (events (abandon_after 1 "SELECT" [] ∅ s))
  = [@Acquired Stub.driver 0%nat; @Released Stub.driver 0%nat] /\
  Stub.rows (Connection.env (final (abandon_after 1 "SELECT" [] ∅ s)))
  = [[VInt 2; VStr "bob"]; [VInt 3; VStr "eve"]] /\
  events (Connection.gen_close (outcome (abandon_after 1 "SELECT" [] ∅ s))
            (final (abandon_after 1 "SELECT" [] ∅ s))) = [].
Proof. intros s. split; [|split]; vm_compute; reflexivity. Qed.

Lemma empty_named_falls_back_witness :
  let s := Connection.State Stub.connected (Stub.healthy []) in
  let kw : gmap string value := {["id" := VInt 7]} in
  executes (events (run_single Squery "SELECT" [VInt 1] ∅ s))
  = [(0%nat, "SELECT", PTuple [VInt 1])] /\
  kw <> ∅.
Proof.
  intros s kw.
  destruct (empty_named_falls_back (D := Stub.driver) Squery "SELECT"
              [VInt 1] s) as [Hempty Hdict].
  split.
  - rewrite Hempty. reflexivity.
  - apply (Hdict kw 0%nat "SELECT" kw).
    change (executes (events (run_single Squery "SELECT" [VInt 1] kw s)))
      with [(0%nat, "SELECT", PDict kw)].
    apply list_elem_of_here.
Defined.

(** * Further properties *)

#[local] Arguments collect : simpl never.

(** ** Closing and reconnecting *)

Section Teardown.
Context `{D : Driver}.

(** X1.  [close] returns normally, closes the handle when there is one and
    leaves the object without a handle; closing again, or tearing the
    object down after it was closed, touches nothing. *)
Theorem close_idempotent (s : Connection.state) :
  outcome (Connection.close s) = inr tt /\
  Connection._db (Connection.self (final (Connection.close s))) = None /\
  handle_closes (events (Connection.close s))
  = match Connection._db (Connection.self s) with
    | Some h => [h]
    | None => []
    end /\
  Connection.close (final (Connection.close s))
  = ([], final (Connection.close s), inr tt) /\
  Connection.__del__ (final (Connection.close s))
  = ([], final (Connection.close s), inr tt).
Proof.
  destruct s as [[h d m so db a t] w].
  unfold Connection.__del__, outcome, final, events, Connection.close. unfold_bind.
  simpl. destruct db as [h0|]; simpl; repeat split; reflexivity.
Qed.

(** X2.  [reconnect] closes the handle it had before it calls [Connect]
    with the stored arguments.  If [Connect] raises, that exception leaves
    [reconnect] and the object has no handle, the old one being closed; if
    [Connect] returns a handle, the object holds it and autocommit was set
    to true on it, whatever the setter then did. *)
Theorem reconnect_outcomes (s : Connection.state) :
  let r := Connection.reconnect s in
  let closed := match Connection._db (Connection.self s) with
                | Some h => [EvDbClose h]
                | None => []
                end in
  let w0 := match Connection._db (Connection.self s) with
            | Some h => db_close h (Connection.env s)
            | None => Connection.env s
            end in
  let args := Connection._db_args (Connection.self s) in
  (forall x w1,
     Connect args w0 = (inl x, w1) ->
     events r = EvCall "reconnect" :: closed ++ [EvConnect args] /\
     outcome r = inl x /\
     Connection._db (Connection.self (final r)) = None) /\
  (forall h w1,
     Connect args w0 = (inr h, w1) ->
     events r
     = EvCall "reconnect" :: closed ++ [EvConnect args; EvAutocommit h true] /\
     outcome r = (set_autocommit h true w1).1 /\
     Connection._db (Connection.self (final r)) = Some h).
Proof.
  destruct s as [[h d m so db a t] w].
  unfold outcome, final, events, Connection.reconnect, Connection.close.
  unfold_bind. simpl.
  destruct db as [h0|]; simpl; split; intros y w1 Hc; rewrite Hc; simpl;
    try done; destruct (set_autocommit y true w1) as [[x|u] w2]; done.
Qed.

(** X3.  When [_ensure_connected] returns, the object has a handle; and
    when no reconnect was due, it called nothing but the clock and the
    handle is the one it had. *)
Theorem ensure_connected_handle (s : Connection.state) :
  (outcome (Connection._ensure_connected s) = inr tt ->
   is_Some (Connection._db
              (Connection.self (final (Connection._ensure_connected s)))))
  /\
  (spec_stale s = false ->
   events (Connection._ensure_connected s) = [] /\
   outcome (Connection._ensure_connected s) = inr tt /\
   Connection._db (Connection.self (final (Connection._ensure_connected s)))
   = Connection._db (Connection.self s)).
Proof.
  assert (Hr : forall s0 : Connection.state,
             match (Connection.reconnect s0).2 with
             | inr _ => is_Some (Connection._db
                                   (Connection.self (Connection.reconnect s0).1.2))
             | inl _ => True
             end) by apply reconnect_handle.
  destruct s as [[h d m so db a t] w].
  unfold spec_stale, events, final, outcome.
  unfold Connection._ensure_connected, Connection.needs_reconnect,
    Connection.set__last_use_time, mbind, Connection.M_bind,
    Connection.bind, Connection.ret, Connection.attr,
    Connection.call_total.
  simpl.
  destruct db as [h0|]; simpl.
  - destruct (time_time w) as [now w1]; simpl.
    destruct (PrimFloat.ltb m (PrimFloat.sub now t)); simpl.
    + match goal with
      | |- context [Connection.reconnect ?s0] =>
          specialize (Hr s0);
          destruct (Connection.reconnect s0) as [[e0 s1] [x|[]]]
      end; simpl in *; [split; intros; discriminate|].
      destruct (time_time (Connection.env s1)) as [now' w2]; simpl.
      split; [done|intros; discriminate].
    + destruct (time_time w1) as [now' w2]; simpl. split; eauto.
  - match goal with
    | |- context [Connection.reconnect ?s0] =>
        specialize (Hr s0);
        destruct (Connection.reconnect s0) as [[e0 s1] [x|[]]]
    end; simpl in *; [split; intros; discriminate|].
    destruct (time_time (Connection.env s1)) as [now' w2]; simpl.
    split; [done|intros; discriminate].
Qed.

End Teardown.

(** ** What operations leave unchanged *)

Section Frame.
Context `{D : Driver}.

Lemma ensure_connected_frame (s : Connection.state) :
  config (Connection.self (final (Connection._ensure_connected s)))
  = config (Connection.self s).
Proof.
  assert (Hr : forall s0 : Connection.state,
             config (Connection.self (Connection.reconnect s0).1.2)
             = config (Connection.self s0)).
  { intros s0. pose proof (reconnect_frame s0) as Hf. unfold final in Hf.
    by rewrite Hf. }
  destruct s as [[h d m so db a t] w]. unfold final.
  unfold Connection._ensure_connected, Connection.needs_reconnect,
    Connection.set__last_use_time, mbind, Connection.M_bind,
    Connection.bind, Connection.ret, Connection.attr,
    Connection.call_total.
  simpl.
  destruct db as [h0|]; simpl.
  - destruct (time_time w) as [now w1]; simpl.
    destruct (PrimFloat.ltb m (PrimFloat.sub now t)); simpl.
    + match goal with
      | |- context [Connection.reconnect ?s0] =>
          specialize (Hr s0);
          destruct (Connection.reconnect s0) as [[e0 s1] [x|[]]]
      end; simpl in *; [done|].
      by destruct (time_time (Connection.env s1)) as [now' w2].
    + by destruct (time_time w1) as [now' w2].
  - match goal with
    | |- context [Connection.reconnect ?s0] =>
        specialize (Hr s0);
        destruct (Connection.reconnect s0) as [[e0 s1] [x|[]]]
    end; simpl in *; [done|].
    by destruct (time_time (Connection.env s1)) as [now' w2].
Qed.

(** Acquiring a cursor changes nothing of the object after
    [_ensure_connected]. *)
Lemma acquire_self (m : single) (s : Connection.state) :
  Connection.self (final (acquire m s))
  = Connection.self (final (Connection._ensure_connected s)).
Proof.
  unfold final.
  destruct m; unfold acquire, Connection._cursor; unfold_bind;
    destruct (Connection._ensure_connected s) as [[e0 s0] [x|[]]]; simpl;
    try done;
    try destruct (Connection._db (Connection.self s0)) as [h|]; simpl;
    try done;
    match goal with
    | |- context [db_cursor ?h ?w] => destruct (db_cursor h w) as [[x|c] w1]
    | |- context [MySQLCursor ?h ?w] =>
        destruct (MySQLCursor h w) as [[x|c] w1]
    end; done.
Qed.

(** [_execute] changes nothing of the object but, at most, its handle. *)
Lemma execute_self (c : cursor) (q : string) (ps : list value)
    (kw : gmap string value) (s : Connection.state) :
  config (Connection.self (final (Connection._execute c q ps kw s)))
  = config (Connection.self s) /\
  Connection._last_use_time
    (Connection.self (final (Connection._execute c q ps kw s)))
  = Connection._last_use_time (Connection.self s).
Proof.
  rewrite execute_run. unfold final. repeat case_match; done.
Qed.

(** After the statement, nothing changes the object any more. *)
Lemma single_final_self (m : single) (q : string) (ps : list value)
    (kw : gmap string value) (s : Connection.state) (e1 : list event)
    (s1 : Connection.state) (c : cursor) :
  acquire m s = (e1, s1, inr c) ->
  Connection.self (final (run_single m q ps kw s))
  = Connection.self (final (Connection._execute c q ps kw s1)).
Proof.
  intros Ha.
  destruct (Connection._execute c q ps kw s1) as [[e2 s2] [x|u]] eqn:He.
  - by rewrite (single_execute_raises m q ps kw s _ _ _ _ c x Ha He).
  - revert Ha He. unfold final.
    destruct m; unfold acquire; intros Ha He; unfold_op; step_to Ha;
      unfold Connection.try_finally, Connection.iter_loop; step_to He;
      unfold Connection.column_names, Connection.fetch_all; unfold_bind;
      simpl; repeat case_match; simplify_eq/=; done.
Qed.

Lemma single_frame (m : single) (q : string) (ps : list value)
    (kw : gmap string value) (s : Connection.state) :
  config (Connection.self (final (run_single m q ps kw s)))
  = config (Connection.self s) /\
  Connection._last_use_time
    (Connection.self (final (run_single m q ps kw s)))
  = Connection._last_use_time
      (Connection.self (final (Connection._ensure_connected s))).
Proof.
  pose proof (ensure_connected_frame s) as Hens.
  pose proof (acquire_self m s) as Hacq.
  destruct (acquire m s) as [[e1 s1] [x|c]] eqn:Ha.
  - rewrite (single_acquire_fails m q ps kw s e1 s1 x Ha).
    unfold final in *. simpl in *. by rewrite Hacq.
  - rewrite (single_final_self m q ps kw s e1 s1 c Ha).
    destruct (execute_self c q ps kw s1) as [-> ->].
    unfold final in Hacq. simpl in Hacq. by rewrite Hacq.
Qed.

Lemma batch_frame (m : batch) (q : string) (pss : list params)
    (s : Connection.state) :
  config (Connection.self (final (run_batch m q pss s)))
  = config (Connection.self s) /\
  Connection._last_use_time
    (Connection.self (final (run_batch m q pss s)))
  = Connection._last_use_time
      (Connection.self (final (Connection._ensure_connected s))).
Proof.
  pose proof (ensure_connected_frame s) as Hens.
  rewrite batch_run.
  pose proof (acquire_self Squery s) as Hacq. simpl in Hacq.
  destruct (Connection._cursor s) as [[e1 s1] [x|c]];
    unfold final in *; simpl in *.
  - by rewrite Hacq.
  - destruct (cursor_executemany c q pss (Connection.env s1)) as [r w].
    simpl. by rewrite Hacq.
Qed.

(** X4.  No operation changes what was fixed at construction (host,
    database, idle limit, socket attribute, connect arguments), and the
    last-use time an operation leaves is the one [_ensure_connected] set:
    the clock is read before the statement runs, not after. *)
Theorem operations_preserve_config (s : Connection.state) :
  (forall m q ps kw,
     config (Connection.self (final (run_single m q ps kw s)))
     = config (Connection.self s) /\
     Connection._last_use_time
       (Connection.self (final (run_single m q ps kw s)))
     = Connection._last_use_time
         (Connection.self (final (Connection._ensure_connected s)))) /\
  (forall m q pss,
     config (Connection.self (final (run_batch m q pss s)))
     = config (Connection.self s) /\
     Connection._last_use_time
       (Connection.self (final (run_batch m q pss s)))
     = Connection._last_use_time
         (Connection.self (final (Connection._ensure_connected s)))).
Proof.
  split.
  - intros m q ps kw. apply single_frame.
  - intros m q pss. apply batch_frame.
Qed.

End Frame.

(** ** Errors of the driver, and what runs once *)

Section Errors.
Context `{D : Driver}.

(** X5.  An exception of the driver that is not an [OperationalError] (an
    [IntegrityError], say) raised by [cursor.execute] passes through every
    operation of the single-statement family untouched: the cursor is
    closed, nothing is logged, the handle is neither closed nor dropped, and
    the same exception reaches the caller. *)
Theorem other_errors_pass_through (m : single) (q : string)
    (ps : list value) (kw : gmap string value) (s : Connection.state)
    (e1 : list event) (s1 : Connection.state) (c : cursor) (x : Exn)
    (w : world)
    (Hacquire : acquire m s = (e1, s1, inr c))
    (Hraise : cursor_execute c q (kw_or kw ps) (Connection.env s1)
              = (inl x, w))
    (Hother : is_OperationalError x = false) :
  run_single m q ps kw s
  = (e1 ++ [EvExecute c q (kw_or kw ps); EvCursorClose c],
     Connection.State (Connection.self s1) (cursor_close c w), inl x) /\
  logged (events (run_single m q ps kw s)) = [] /\
  handle_closes (events (run_single m q ps kw s)) = handle_closes e1.
Proof.
  pose proof (execute_run c q ps kw s1) as He.
  rewrite Hraise, Hother in He.
  pose proof (acquire_events m s) as Hacq. rewrite Hacquire in Hacq.
  pose proof (ensure_connected_quiet s) as (_ & _ & _ & Ql).
  rewrite (single_execute_raises m q ps kw s _ _ _ _ c _ Hacquire He).
  simpl. split; [reflexivity|]. subst e1.
  unfold events, logged, handle_closes in *. simpl.
  rewrite !omap_app, Ql. simpl. by rewrite !app_nil_r.
Qed.

(** X6.  After an operation of the single-statement family has met an
    [OperationalError], the object has no handle, and whatever operation
    comes next begins by calling [reconnect], which calls [Connect] with
    the arguments stored at construction. *)
Theorem operational_error_recovery (m : single) (q : string)
    (ps : list value) (kw : gmap string value) (s : Connection.state)
    (e1 : list event) (s1 : Connection.state) (c : cursor) (msg : string)
    (w : world)
    (Hacquire : acquire m s = (e1, s1, inr c))
    (Hraise : cursor_execute c q (kw_or kw ps) (Connection.env s1)
              = (inl (OperationalError msg), w)) :
  let after := final (run_single m q ps kw s) in
  outcome (run_single m q ps kw s) = inl (OperationalError msg) /\
  spec_stale after = true /\
  (forall m' q' ps' kw', exists rest,
     events (run_single m' q' ps' kw' after)
     = EvCall "reconnect"
         :: EvConnect (Connection._db_args (Connection.self s)) :: rest) /\
  (forall m' q' pss, exists rest,
     events (run_batch m' q' pss after)
     = EvCall "reconnect"
         :: EvConnect (Connection._db_args (Connection.self s)) :: rest).
Proof.
  intros after.
  destruct (single_operational_error m q ps kw s e1 s1 c msg w
              Hacquire Hraise) as (Hout & Hdb & _).
  fold after in Hdb.
  destruct (single_frame m q ps kw s) as [Hcfg _]. fold after in Hcfg.
  assert (Hargs : Connection._db_args (Connection.self after)
                  = Connection._db_args (Connection.self s))
    by (unfold config in Hcfg; congruence).
  destruct (ensure_connected_absent after Hdb) as [rest0 H0].
  rewrite Hargs in H0.
  destruct (operations_begin_with_ensure after) as [Hs Hb].
  split; [exact Hout|]. split; [unfold spec_stale; by rewrite Hdb|]. split.
  - intros m' q' ps' kw'. destruct (Hs m' q' ps' kw') as [rest ->].
    rewrite H0. simpl. eauto.
  - intros m' q' pss. destruct (Hb m' q' pss) as [rest ->].
    rewrite H0. simpl. eauto.
Qed.

(** [_ensure_connected] calls [Connect] exactly when a reconnect is due,
    with the stored arguments. *)
Lemma ensure_connected_connects (s : Connection.state) :
  connects (events (Connection._ensure_connected s))
  = if spec_stale s then [Connection._db_args (Connection.self s)] else [].
Proof.
  assert (Hr : forall s0 : Connection.state,
             connects (Connection.reconnect s0).1.1
             = [Connection._db_args (Connection.self s0)])
    by apply reconnect_once.
  destruct s as [[h d m so db a t] w].
  unfold spec_stale, events.
  unfold Connection._ensure_connected, Connection.needs_reconnect,
    Connection.set__last_use_time, mbind, Connection.M_bind,
    Connection.bind, Connection.ret, Connection.attr,
    Connection.call_total.
  simpl.
  destruct db as [h0|]; simpl.
  - destruct (time_time w) as [now w1]; simpl.
    destruct (PrimFloat.ltb m (PrimFloat.sub now t)); simpl.
    + match goal with
      | |- context [Connection.reconnect ?s0] =>
          specialize (Hr s0);
          destruct (Connection.reconnect s0) as [[e0 s1] [x|[]]]
      end; simpl in *; [done|].
      destruct (time_time (Connection.env s1)) as [now' w2]; simpl.
      by rewrite !app_nil_r.
    + by destruct (time_time w1) as [now' w2].
  - match goal with
    | |- context [Connection.reconnect ?s0] =>
        specialize (Hr s0);
        destruct (Connection.reconnect s0) as [[e0 s1] [x|[]]]
    end; simpl in *; [done|].
    destruct (time_time (Connection.env s1)) as [now' w2]; simpl.
    by rewrite !app_nil_r.
Qed.

Lemma ensure_connected_no_batch (s : Connection.state) :
  executemanys (events (Connection._ensure_connected s)) = [].
Proof.
  assert (Hr : forall s0 : Connection.state,
             executemanys (Connection.reconnect s0).1.1 = []).
  { intros [[h d m so db a t] w].
    unfold Connection.reconnect, Connection.close. unfold_bind. simpl.
    destruct db as [h0|]; simpl;
      match goal with
      | |- context [Connect a ?w0] => destruct (Connect a w0) as [[x|h1] w1]
      end; simpl; try done;
      destruct (set_autocommit h1 true w1) as [[x|u] w2]; done. }
  destruct s as [[h d m so db a t] w]. unfold events.
  unfold Connection._ensure_connected, Connection.needs_reconnect,
    Connection.set__last_use_time, mbind, Connection.M_bind,
    Connection.bind, Connection.ret, Connection.attr,
    Connection.call_total.
  simpl.
  destruct db as [h0|]; simpl.
  - destruct (time_time w) as [now w1]; simpl.
    destruct (PrimFloat.ltb m (PrimFloat.sub now t)); simpl.
    + match goal with
      | |- context [Connection.reconnect ?s0] =>
          specialize (Hr s0);
          destruct (Connection.reconnect s0) as [[e0 s1] [x|[]]]
      end; simpl in *; [done|].
      destruct (time_time (Connection.env s1)) as [now' w2]; simpl.
      by rewrite !app_nil_r.
    + by destruct (time_time w1) as [now' w2].
  - match goal with
    | |- context [Connection.reconnect ?s0] =>
        specialize (Hr s0);
        destruct (Connection.reconnect s0) as [[e0 s1] [x|[]]]
    end; simpl in *; [done|].
    destruct (time_time (Connection.env s1)) as [now' w2]; simpl.
    by rewrite !app_nil_r.
Qed.

(** X7.  No operation connects twice or runs its statement twice: it calls
    [Connect] once when a reconnect is due and not at all otherwise; an
    operation of the single-statement family hands its statement to
    [cursor.execute] at most once and never calls [executemany]; a batch
    operation calls [cursor.executemany] at most once, with the batch it
    was given, and never [execute]. *)
Theorem nothing_runs_twice (s : Connection.state) :
  let due := if spec_stale s
             then [Connection._db_args (Connection.self s)] else [] in
  (forall m q ps kw,
     connects (events (run_single m q ps kw s)) = due /\
     (length (executes (events (run_single m q ps kw s))) <= 1)%nat /\
     executemanys (events (run_single m q ps kw s)) = []) /\
  (forall m q pss,
     connects (events (run_batch m q pss s)) = due /\
     executes (events (run_batch m q pss s)) = [] /\
     (executemanys (events (run_batch m q pss s)) = [] \/
      exists c, executemanys (events (run_batch m q pss s)) = [(c, q, pss)])).
Proof.
  intros due.
  pose proof (ensure_connected_connects s) as Hc. fold due in Hc.
  pose proof (ensure_connected_no_batch s) as Hm.
  pose proof (ensure_connected_quiet s) as (Hx & _).
  split.
  - intros m q ps kw.
    pose proof (single_events m q ps kw s) as Hs.
    pose proof (acquire_events m s) as Ha.
    destruct (acquire m s) as [[e1 s1] [x|c]].
    + rewrite Hs. destruct Ha as [-> _]. unfold events at 1 3 5. simpl.
      rewrite Hc, Hx, Hm. simpl. auto.
    + destruct Hs as (tail & -> & Ht). subst e1.
      rewrite execute_run.
      unfold connects, executes, executemanys, events in *.
      rewrite !omap_app, Hc, Hx, Hm.
      destruct Ht as [->|[_ ->]]; repeat case_match; simpl;
        rewrite ?app_nil_r; auto.
  - intros m q pss. rewrite batch_run.
    pose proof (acquire_events Squery s) as Ha. simpl in Ha.
    destruct (Connection._cursor s) as [[e1 s1] [x|c]].
    + destruct Ha as [-> _]. unfold events at 1 3 5 7. simpl.
      rewrite Hc, Hx, Hm. auto.
    + destruct (cursor_executemany c q pss (Connection.env s1)) as [r w].
      subst e1. unfold connects, executes, executemanys, events in *. simpl.
      rewrite !omap_app, Hc, Hx, Hm. simpl. rewrite !app_nil_r. eauto.
Qed.

End Errors.

(** ** The rows of a result set *)

Section Rows.
Context `{D : Driver}.

Lemma collect_step (n : nat) (g : Connection.generator)
    (s : Connection.state) :
  collect (S n) g s
  = match Connection.gen_next g s with
    | (e1, s1, (g1, inr (Some row))) =>
        match collect n g1 s1 with
        | (e2, s2, g2, rows) => (e1 ++ e2, s2, g2, row :: rows)
        end
    | (e1, s1, (g1, _)) => (e1, s1, g1, [])
    end.
Proof. reflexivity. Qed.

Lemma delivers_pending (c : cursor) (w : world) (ts : list (list value))
    (w' : world) :
  delivers c w ts w' -> (length ts <= cursor_pending c w)%nat.
Proof.
  induction 1 as [w w' H|w w1 w' t ts H _ IH]; simpl; [lia|].
  pose proof (cursor_next_pending c w t w1 H). lia.
Qed.

Lemma fetch_delivers (c : cursor) (names : list string) (w : world)
    (ts : list (list value)) (w' : world) (fuel : nat) :
  delivers c w ts w' -> (length ts < fuel)%nat ->
  Connection.fetch fuel c names w
  = Some (inr (map (Connection.make_row names) ts), w').
Proof.
  intros Hd. revert fuel.
  induction Hd as [w w' H|w w1 w' t ts H _ IH]; intros [|fuel] Hlt;
    simpl in Hlt; try lia; unfold Connection.fetch; fold Connection.fetch;
    rewrite H; [reflexivity|].
  by rewrite (IH fuel ltac:(lia)).
Qed.

Lemma fetch_all_delivers (c : cursor) (names : list string)
    (s : Connection.state) (ts : list (list value)) (w' : world) :
  delivers c (Connection.env s) ts w' ->
  Connection.fetch_all c names s
  = ([], Connection.State (Connection.self s) w',
     inr (map (Connection.make_row names) ts)).
Proof.
  intros Hd. unfold Connection.fetch_all.
  pose proof (delivers_pending _ _ _ _ Hd) as Hp.
  by rewrite (fetch_delivers c names _ ts w'
                (S (cursor_pending c (Connection.env s))) Hd ltac:(lia)).
Qed.

(** X8.  Once the cursor is acquired and the statement has run: if the
    cursor has a description and delivers the tuples [ts], [query] returns
    one row per tuple, in order, each the tuple zipped with the column
    names of the description, and closes the cursor; if the statement has
    no result set (the description is [None]), [query] raises a
    [TypeError] after the statement has run, and closes the cursor. *)
Theorem query_rows (q : string) (ps : list value) (kw : gmap string value)
    (s : Connection.state) (e1 e2 : list event) (s1 s2 : Connection.state)
    (c : cursor)
    (Hcursor : Connection._cursor s = (e1, s1, inr c))
    (Hexec : Connection._execute c q ps kw s1 = (e2, s2, inr tt)) :
  (forall ds ts w',
     cursor_description c (Connection.env s2) = Some ds ->
     delivers c (Connection.env s2) ts w' ->
     Connection.query q ps kw s
     = (e1 ++ e2 ++ [EvCursorClose c],
        Connection.State (Connection.self s2) (cursor_close c w'),
        inr (map (Connection.make_row (map fst ds)) ts))) /\
  (cursor_description c (Connection.env s2) = None ->
   Connection.query q ps kw s
   = (e1 ++ e2 ++ [EvCursorClose c],
      Connection.State (Connection.self s2)
        (cursor_close c (Connection.env s2)),
      inl (TypeError "'NoneType' object is not iterable"))).
Proof.
  split.
  - intros ds ts w' Hdesc Hd.
    unfold Connection.query. step_to Hcursor.
    unfold Connection.try_finally. step_to Hexec.
    unfold Connection.column_names.
    unfold mbind, Connection.M_bind, Connection.bind, Connection.read,
      Connection.ret.
    simpl. rewrite Hdesc. simpl.
    rewrite (fetch_all_delivers c (map fst ds) s2 ts w' Hd).
    unfold_bind. simpl. by rewrite !app_nil_r.
  - intros Hdesc.
    unfold Connection.query. step_to Hcursor.
    unfold Connection.try_finally. step_to Hexec.
    unfold Connection.column_names. unfold_bind. simpl. rewrite Hdesc.
    simpl. by rewrite !app_nil_r.
Qed.

Lemma collect_suspended (c : cursor) (names : list string)
    (o : Connection.obj) (w : world) (ts : list (list value)) (w' : world) :
  delivers c w ts w' ->
  collect (S (length ts)) (Connection.Suspended c names)
    (Connection.State o w)
  = ([EvCursorClose c], Connection.State o (cursor_close c w'),
     Connection.Finished, map (Connection.make_row names) ts).
Proof.
  induction 1 as [w w' H|w w1 w' t ts H _ IH];
    rewrite collect_step; unfold Connection.gen_next, Connection.iter_loop;
    unfold_bind; simpl; rewrite H; simpl; [reflexivity|].
  by rewrite IH.
Qed.

(** X9.  [iter] yields what [query] returns: once its cursor is acquired
    and the statement has run, if the cursor has a description and delivers
    the tuples [ts], a loop over the generator receives one row per tuple,
    in order, built as in [query]; when the loop has met the end, the
    cursor is closed and the generator finished. *)
Theorem iter_rows (q : string) (ps : list value) (kw : gmap string value)
    (s : Connection.state) (e1 e2 : list event) (s1 s2 : Connection.state)
    (c : cursor) (ds : list (string * Z)) (ts : list (list value))
    (w' : world)
    (Hcursor : acquire Siter s = (e1, s1, inr c))
    (Hexec : Connection._execute c q ps kw s1 = (e2, s2, inr tt))
    (Hdesc : cursor_description c (Connection.env s2) = Some ds)
    (Hrows : delivers c (Connection.env s2) ts w') :
  collect (S (length ts)) (Connection.iter q ps kw) s
  = (e1 ++ e2 ++ [EvCursorClose c],
     Connection.State (Connection.self s2) (cursor_close c w'),
     Connection.Finished, map (Connection.make_row (map fst ds)) ts).
Proof.
  unfold acquire in Hcursor.
  destruct s2 as [o2 w2]. simpl in *.
  destruct Hrows as [w2 w' H|w2 w3 w' t ts H Hd]; simpl length;
    rewrite collect_step; unfold Connection.iter, Connection.gen_next;
    step_to Hcursor;
    unfold mbind at 1, Connection.M_bind, Connection.bind at 1;
    rewrite Hexec; unfold Connection.column_names, Connection.iter_loop;
    unfold_bind; simpl; rewrite Hdesc; simpl; rewrite H; simpl.
  - by rewrite !app_nil_r.
  - rewrite (collect_suspended c (map fst ds) o2 w3 ts w' Hd).
    by rewrite !app_nil_r, <- app_assoc.
Qed.

End Rows.

(** ** The columns of a row *)

Section RowColumns.

Lemma row_fold_absent (names : list string) (vals : list value)
    (acc : gmap string value) (n : string) :
  n ∉ names ->
  fold_left (fun (m : gmap string value) kv => <[kv.1 := kv.2]> m)
    (combine names vals) acc !! n = acc !! n.
Proof.
  revert vals acc. induction names as [|a names IH]; intros vals acc Hn;
    [reflexivity|].
  destruct vals as [|b vals]; [reflexivity|]. simpl.
  apply not_elem_of_cons in Hn as [Hne Hn].
  rewrite (IH vals _ Hn). by rewrite lookup_insert_ne.
Qed.

Lemma row_fold_present (names : list string) (vals : list value)
    (acc : gmap string value) (i : nat) (n : string) (v : value) :
  NoDup names -> names !! i = Some n -> vals !! i = Some v ->
  fold_left (fun (m : gmap string value) kv => <[kv.1 := kv.2]> m)
    (combine names vals) acc !! n = Some v.
Proof.
  revert vals acc i. induction names as [|a names IH];
    intros vals acc i Hnd Hn Hv; [by destruct i|].
  destruct vals as [|b vals]; [by destruct i|].
  apply NoDup_cons in Hnd as [Ha Hnd]. simpl.
  destruct i as [|i]; simpl in Hn, Hv.
  - injection Hn as ->. injection Hv as ->.
    rewrite (row_fold_absent names vals _ n Ha). apply lookup_insert_eq.
  - by apply (IH vals _ i).
Qed.

Lemma combine_snoc (names : list string) (vals : list value) (n : string)
    (v : value) :
  length names = length vals ->
  combine (names ++ [n]) (vals ++ [v]) = combine names vals ++ [(n, v)].
Proof.
  revert vals. induction names as [|a names IH]; intros [|b vals] Hlen;
    simpl in *; try discriminate; [reflexivity|].
  by rewrite (IH vals) by congruence.
Qed.

(** X10.  A row built from column names and a tuple gives back, under each
    column name, the value at that column's position, by key and (for a
    name the [dict] type does not define) by attribute, when the names are
    distinct; a name that is no column is a missing key; a column the
    tuple is too short for is missing too; and of two columns with the same
    name the later one wins. *)
Theorem row_columns (names : list string) (vals : list value) :
  (forall i n v,
     NoDup names -> names !! i = Some n -> vals !! i = Some v ->
     Row.__getitem__ (Connection.make_row names vals) n = inr v /\
     (Row.on_type n = false ->
      Row.getattr (Connection.make_row names vals) n = inr v)) /\
  (forall n,
     n ∉ names ->
     Row.__getitem__ (Connection.make_row names vals) n = inl (KeyError n)) /\
  (forall n,
     n ∉ take (length vals) names ->
     Row.__getitem__ (Connection.make_row names vals) n = inl (KeyError n)) /\
  (forall n v,
     length names = length vals ->
     Row.__getitem__ (Connection.make_row (names ++ [n]) (vals ++ [v])) n
     = inr v).
Proof.
  unfold Connection.make_row, Row.of_pairs, Row.getattr, Row.__getattr__,
    Row.__getitem__.
  split; [|split; [|split]].
  - intros i n v Hnd Hn Hv.
    rewrite (row_fold_present names vals ∅ i n v Hnd Hn Hv).
    split; [reflexivity|]. by intros ->.
  - intros n Hn. by rewrite (row_fold_absent names vals ∅ n Hn).
  - intros n Hn.
    assert (Hc : combine names vals
                 = combine (take (length vals) names) vals).
    { clear Hn. revert vals. induction names as [|a names IH];
        intros [|b vals]; simpl; try reflexivity. by rewrite <- IH. }
    rewrite Hc. by rewrite (row_fold_absent _ vals ∅ n Hn).
  - intros n v Hlen. rewrite (combine_snoc names vals n v Hlen).
    rewrite fold_left_app. simpl. by rewrite lookup_insert_eq.
Qed.

End RowColumns.

Lemma row_columns_witness :
  let names := ["id"; "name"; "keys"] in
  let vals := [VInt 7; VStr "ada"; VInt 3] in
  (Row.__getitem__ (Connection.make_row names vals) "name" = inr (VStr "ada")
   /\ Row.getattr (Connection.make_row names vals) "name" = inr (VStr "ada"))
  /\
  Row.__getitem__ (Connection.make_row names vals) "email"
  = inl (KeyError "email") /\
  Row.__getitem__ (Connection.make_row names [VInt 7]) "name"
  = inl (KeyError "name") /\
  Row.__getitem__ (Connection.make_row (["id"; "n"] ++ ["id"])
                     ([VInt 1; VInt 2] ++ [VInt 9])) "id" = inr (VInt 9).
Proof.
  intros names vals.
  destruct (row_columns names vals) as (Hin & Hout & _ & _).
  destruct (row_columns names [VInt 7]) as (_ & _ & Hshort & _).
  destruct (row_columns ["id"; "n"] [VInt 1; VInt 2]) as (_ & _ & _ & Hdup).
  split; [|split; [|split]].
  - destruct (Hin 1%nat "name" (VStr "ada")) as [Hk Ha];
      [by apply (bool_decide_unpack _)|reflexivity|reflexivity|].
    split; [exact Hk|]. apply Ha. reflexivity.
  - apply Hout. by apply (bool_decide_unpack _).
  - apply Hshort. by apply (bool_decide_unpack _).
  - apply Hdup. reflexivity.
Defined.

(** ** More on construction *)

Section MoreConstruction.
Context `{D : Driver}.

Lemma split_length (sep : ascii) (s : string) :
  length (split sep s) = S (count_char sep s).
Proof.
  induction s as [|c s IH]; simpl; [reflexivity|].
  destruct (Ascii.eqb c sep); simpl; [by rewrite IH|].
  destruct (split sep s) as [|w ws] eqn:E; [by destruct (split_nonempty sep s)|].
  simpl in *. exact IH.
Qed.


(** X12.  Whatever the host string, the connect arguments of a constructed
    object carry [use_unicode = True], [charset = "utf8"],
    [sql_mode = "TRADITIONAL"], the database as [db], the time zone and the
    connect timeout; [user] and [passwd] are there exactly when they were
    given; and either [unix_socket] is set, or [host] and [port] are, never
    both. *)
Theorem connect_arguments (host database : string)
    (user password : option string) (idle : float) (timeout : value)
    (tz : string) (w : world) (evs : list event) (w' : world)
    (o : Connection.obj)
    (Hinit : Connection.__init__ host database user password idle timeout tz w
             = (evs, w', inr o)) :
  let args := Connection._db_args o in
  args !! "use_unicode" = Some (VBool true) /\
  args !! "charset" = Some (VStr "utf8") /\
  args !! "sql_mode" = Some (VStr "TRADITIONAL") /\
  args !! "db" = Some (VStr database) /\
  args !! "time_zone" = Some (VStr tz) /\
  args !! "connect_timeout" = Some timeout /\
  args !! "user" = VStr <$> user /\
  args !! "passwd" = VStr <$> password /\
  (is_Some (args !! "unix_socket") <-> args !! "host" = None) /\
  (is_Some (args !! "host") <-> is_Some (args !! "port")).
Proof.
  destruct (Connection.host_args host
              (Connection.base_args database user password timeout tz))
    as [e'|[args0 sock]] eqn:Hargs.
  { unfold Connection.__init__ in Hinit. rewrite Hargs in Hinit.
    discriminate Hinit. }
  destruct (init_with_args host database user password idle timeout tz
              w args0 sock Hargs) as (evs0 & w0 & db & E).
  rewrite E in Hinit. injection Hinit as _ _ <-. simpl.
  pose proof (base_args_no_host database user password timeout tz)
    as (Bh & Bp & Bu).
  assert (Hbase :
    Connection.base_args database user password timeout tz !! "use_unicode"
      = Some (VBool true) /\
    Connection.base_args database user password timeout tz !! "charset"
      = Some (VStr "utf8") /\
    Connection.base_args database user password timeout tz !! "sql_mode"
      = Some (VStr "TRADITIONAL") /\
    Connection.base_args database user password timeout tz !! "db"
      = Some (VStr database) /\
    Connection.base_args database user password timeout tz !! "time_zone"
      = Some (VStr tz) /\
    Connection.base_args database user password timeout tz
      !! "connect_timeout" = Some timeout /\
    Connection.base_args database user password timeout tz !! "user"
      = VStr <$> user /\
    Connection.base_args database user password timeout tz !! "passwd"
      = VStr <$> password).
  { unfold Connection.base_args. destruct user, password; simpl;
      repeat split; by simplify_map_eq. }
  destruct Hbase as (H1 & H2 & H3 & H4 & H5 & H6 & H7 & H8).
  unfold Connection.host_args in Hargs.
  destruct (char_in "/" host).
  - injection Hargs as <- _.
    assert (Lu : <["unix_socket" := VStr host]>
                   (Connection.base_args database user password timeout tz)
                 !! "unix_socket" = Some (VStr host)) by by simplify_map_eq.
    assert (Lh : <["unix_socket" := VStr host]>
                   (Connection.base_args database user password timeout tz)
                 !! "host" = None) by by simplify_map_eq.
    assert (Lp : <["unix_socket" := VStr host]>
                   (Connection.base_args database user password timeout tz)
                 !! "port" = None) by by simplify_map_eq.
    rewrite Lu, Lh, Lp.
    repeat split; try (by simplify_map_eq); eauto; by intros [? ?].
  - assert (Hboth : exists h p,
               args0 = <["port" := VInt p]>
                         (<["host" := VStr h]>
                            (Connection.base_args database user password
                               timeout tz))).
    { case_bool_decide.
      - destruct (int_of_str _) as [e|port]; [discriminate|].
        injection Hargs as <- _. eauto.
      - injection Hargs as <- _. eauto. }
    destruct Hboth as (h & p & ->).
    assert (Lu : <["port" := VInt p]>
                   (<["host" := VStr h]>
                      (Connection.base_args database user password timeout
                         tz)) !! "unix_socket" = None) by by simplify_map_eq.
    assert (Lh : <["port" := VInt p]>
                   (<["host" := VStr h]>
                      (Connection.base_args database user password timeout
                         tz)) !! "host" = Some (VStr h)) by by simplify_map_eq.
    assert (Lp : <["port" := VInt p]>
                   (<["host" := VStr h]>
                      (Connection.base_args database user password timeout
                         tz)) !! "port" = Some (VInt p)) by by simplify_map_eq.
    rewrite Lu, Lh, Lp.
    repeat split; try (by simplify_map_eq); eauto; by intros [? ?].
Qed.

(** X13.  A host string without "/" that has no ":" or more than one (an
    IPv6 literal, say) is taken whole as the host, with port 3306: only a
    string with exactly one ":" is split. *)
Theorem unsplit_host (host database : string)
    (user password : option string) (idle : float) (timeout : value)
    (tz : string) (w : world)
    (Hslash : char_in "/" host = false)
    (Hcolons : count_char ":" host <> 1%nat) :
  constructed_with database user password idle timeout tz host w
    (fun args =>
       args !! "host" = Some (VStr host) /\
       args !! "port" = Some (VInt 3306) /\
       args !! "unix_socket" = None).
Proof.
  pose proof (base_args_no_host database user password timeout tz)
    as (Bh & Bp & Bu).
  destruct (init_with_args host database user password idle timeout tz w
              (<["port" := VInt 3306]>
                 (<["host" := VStr host]>
                    (Connection.base_args database user password timeout
                       tz)))
              (Some VNone)) as (evs & w' & db & E).
  { unfold Connection.host_args. rewrite Hslash, split_length.
    rewrite bool_decide_eq_false_2 by lia. reflexivity. }
  do 3 eexists. split; [exact E|]. simpl. by simplify_map_eq.
Qed.

End MoreConstruction.

(** ** Instances on the scripted driver *)

Lemma reconnect_outcomes_witness :
  let refused := OperationalError "Can't connect to MySQL server" in
  let s script :=
    Connection.State Stub.connected
      (Stub.World 1000%float 1%float script 0 None None None [] VNone VNone)
  in
  (events (Connection.reconnect (s [Some refused]))
   = ([EvCall "reconnect"; @EvDbClose Stub.driver 7%nat; EvConnect ∅]
        : list (@event Stub.driver)) /\
   outcome (Connection.reconnect (s [Some refused])) = inl refused /\
   Connection._db (Connection.self (final (Connection.reconnect
                                             (s [Some refused])))) = None) /\
  (events (Connection.reconnect (s []))
   = ([EvCall "reconnect"; @EvDbClose Stub.driver 7%nat; EvConnect ∅;
       @EvAutocommit Stub.driver 0%nat true] : list (@event Stub.driver)) /\
   outcome (Connection.reconnect (s [])) = inr tt /\
   Connection._db (Connection.self (final (Connection.reconnect (s []))))
   = Some 0%nat).
Proof.
  intros refused s. split.
  - exact (proj1 (reconnect_outcomes (D := Stub.driver) (s [Some refused]))
             refused _ eq_refl).
  - exact (proj2 (reconnect_outcomes (D := Stub.driver) (s []))
             0%nat _ eq_refl).
Defined.

Lemma ensure_connected_handle_witness :
  let w := Stub.healthy [] in
  is_Some (Connection._db
             (Connection.self
                (final (Connection._ensure_connected
                          (Connection.State Stub.disconnected w))))) /\
  events (Connection._ensure_connected (Connection.State Stub.connected w))
  = [] /\
  Connection._db
    (Connection.self
       (final (Connection._ensure_connected
                 (Connection.State Stub.connected w)))) = Some 7%nat.
Proof.
  intros w.
  destruct (ensure_connected_handle (D := Stub.driver)
              (Connection.State Stub.disconnected w)) as [Hsome _].
  destruct (ensure_connected_handle (D := Stub.driver)
              (Connection.State Stub.connected w)) as [_ Hfresh].
  destruct (Hfresh eq_refl) as (Hev & _ & Hdb).
  split; [exact (Hsome eq_refl)|]. split; [exact Hev|exact Hdb].
Defined.

Lemma other_errors_pass_through_witness :
  let dup := IntegrityError "Duplicate entry '7' for key 'PRIMARY'" in
  let s := Connection.State Stub.connected
             (Stub.World 1000%float 1%float [] 0 (Some dup) None None []
                VNone VNone) in
  outcome (run_single Sexecute "INSERT" [VInt 7] ∅ s) = inl dup /\
  Connection._db (Connection.self (final (run_single Sexecute "INSERT"
                                             [VInt 7] ∅ s))) = Some 7%nat /\
  logged (events (run_single Sexecute "INSERT" [VInt 7] ∅ s)) = [] /\
  cursor_trace (events (run_single Sexecute "INSERT" [VInt 7] ∅ s))
  = [@Acquired Stub.driver 0%nat; @Released Stub.driver 0%nat].
Proof.
  intros dup s.
  destruct (other_errors_pass_through (D := Stub.driver) Sexecute "INSERT"
              [VInt 7] ∅ s _ _ _ dup _ eq_refl eq_refl eq_refl)
    as (Hrun & Hlog & _).
  rewrite Hrun. split; [reflexivity|]. split; [reflexivity|].
  split; [|reflexivity]. rewrite Hrun in Hlog. exact Hlog.
Defined.

Lemma operational_error_recovery_witness :
  let gone := OperationalError "MySQL server has gone away" in
  let s := Connection.State Stub.connected
             (Stub.World 1000%float 1%float [] 0 (Some gone) None None []
                VNone VNone) in
  let after := final (run_single Squery "SELECT" [] ∅ s) in
  outcome (run_single Squery "SELECT" [] ∅ s) = inl gone /\
  spec_stale after = true /\
  exists rest,
    events (run_single Squery "SELECT" [] ∅ after)
    = @EvCall Stub.driver "reconnect" :: EvConnect ∅ :: rest.
Proof.
  intros gone s after.
  destruct (operational_error_recovery (D := Stub.driver) Squery "SELECT" []
              ∅ s _ _ _ "MySQL server has gone away" _ eq_refl eq_refl)
    as (Hout & Hstale & Hnext & _).
  split; [exact Hout|]. split; [exact Hstale|].
  exact (Hnext Squery "SELECT" [] ∅).
Defined.

Lemma query_rows_witness :
  let s := Connection.State Stub.connected
             (Stub.healthy [[VInt 1; VStr "ada"]; [VInt 2; VStr "bob"]]) in
  let t := Connection.State Stub.connected
             (Stub.World 1000%float 1%float [] 0 None None None []
                (VInt 42) (VInt 1)) in
  outcome (Connection.query "SELECT" [] ∅ s)
  = inr [Connection.make_row ["id"; "name"] [VInt 1; VStr "ada"];
         Connection.make_row ["id"; "name"] [VInt 2; VStr "bob"]] /\
  outcome (Connection.query "INSERT" [] ∅ t)
  = inl (TypeError "'NoneType' object is not iterable").
Proof.
  intros s t. pose (c0 := (0%nat : @cursor Stub.driver)). split.
  - pose (s1 := final (Connection._cursor s)).
    pose (s2 := final (Connection._execute c0 "SELECT" [] ∅ s1)).
    assert (H1 : Connection._cursor s
                 = (events (Connection._cursor s), s1, inr c0))
      by (vm_compute; reflexivity).
    assert (H2 : Connection._execute c0 "SELECT" [] ∅ s1
                 = (events (Connection._execute c0 "SELECT" [] ∅ s1), s2,
                    inr tt))
      by (vm_compute; reflexivity).
    assert (Hd : delivers (D := Stub.driver) c0 (Connection.env s2)
                   [[VInt 1; VStr "ada"]; [VInt 2; VStr "bob"]]
                   (Stub.with_rows [] (Connection.env s2))).
    { eapply delivers_row; [vm_compute; reflexivity|].
      eapply delivers_row; [vm_compute; reflexivity|].
      eapply delivers_end. vm_compute; reflexivity. }
    destruct (query_rows (D := Stub.driver) "SELECT" [] ∅ s _ _ s1 s2
                c0 H1 H2) as [Hrows _].
    rewrite (Hrows [("id", 3); ("name", 253)] _ _
               ltac:(vm_compute; reflexivity) Hd).
    reflexivity.
  - pose (t1 := final (Connection._cursor t)).
    pose (t2 := final (Connection._execute c0 "INSERT" [] ∅ t1)).
    assert (H1 : Connection._cursor t
                 = (events (Connection._cursor t), t1, inr c0))
      by (vm_compute; reflexivity).
    assert (H2 : Connection._execute c0 "INSERT" [] ∅ t1
                 = (events (Connection._execute c0 "INSERT" [] ∅ t1), t2,
                    inr tt))
      by (vm_compute; reflexivity).
    destruct (query_rows (D := Stub.driver) "INSERT" [] ∅ t _ _ t1 t2
                c0 H1 H2) as [_ Hnone].
    rewrite (Hnone ltac:(vm_compute; reflexivity)). reflexivity.
Defined.

Lemma iter_rows_witness :
  let s := Connection.State Stub.connected
             (Stub.healthy [[VInt 1; VStr "ada"]; [VInt 2; VStr "bob"]]) in
  inr (collect 3 (Connection.iter "SELECT" [] ∅) s).2
  = outcome (Connection.query "SELECT" [] ∅ s) /\
  (collect 3 (Connection.iter "SELECT" [] ∅) s).1.2 = Connection.Finished.
Proof.
  intros s. pose (c0 := (0%nat : @cursor Stub.driver)).
  pose (s1 := final (acquire Siter s)).
  pose (s2 := final (Connection._execute c0 "SELECT" [] ∅ s1)).
  assert (H1 : acquire Siter s = (events (acquire Siter s), s1, inr c0))
    by (vm_compute; reflexivity).
  assert (H2 : Connection._execute c0 "SELECT" [] ∅ s1
               = (events (Connection._execute c0 "SELECT" [] ∅ s1), s2,
                  inr tt))
    by (vm_compute; reflexivity).
  assert (Hd : delivers (D := Stub.driver) c0 (Connection.env s2)
                 [[VInt 1; VStr "ada"]; [VInt 2; VStr "bob"]]
                 (Stub.with_rows [] (Connection.env s2))).
  { eapply delivers_row; [vm_compute; reflexivity|].
    eapply delivers_row; [vm_compute; reflexivity|].
    eapply delivers_end. vm_compute; reflexivity. }
  change 3%nat
    with (S (length [[VInt 1; VStr "ada"]; [VInt 2; VStr "bob"]])).
  rewrite (iter_rows (D := Stub.driver) "SELECT" [] ∅ s _ _ s1 s2 c0
             [("id", 3); ("name", 253)] _ _ H1 H2
             ltac:(vm_compute; reflexivity) Hd).
  split; [vm_compute; reflexivity|reflexivity].
Defined.


Lemma connect_arguments_witness :
  let args :=
    match Connection.__init__ (D := Stub.driver) "db.local:3307" "shop"
            (Some "ada") None 28800%float (VInt 4) "+0:00" (Stub.healthy [])
    with
    | (_, _, inr o) => Connection._db_args o
    | _ => ∅
    end in
  args !! "sql_mode" = Some (VStr "TRADITIONAL") /\
  args !! "user" = Some (VStr "ada") /\
  args !! "passwd" = None.
Proof.
  intros args.
  destruct (connect_arguments (D := Stub.driver) "db.local:3307" "shop"
              (Some "ada") None 28800%float (VInt 4) "+0:00" (Stub.healthy [])
              _ _ _ eq_refl)
    as (_ & _ & Hmode & _ & _ & _ & Huser & Hpass & _).
  split; [exact Hmode|]. split; [exact Huser|exact Hpass].
Defined.

Lemma unsplit_host_witness :
  constructed_with (D := Stub.driver) "shop" None None 28800%float (VInt 4)
    "+0:00" "2001:db8::1" (Stub.healthy [])
    (fun args =>
       args !! "host" = Some (VStr "2001:db8::1") /\
       args !! "port" = Some (VInt 3306) /\
       args !! "unix_socket" = None).
Proof.
  apply (unsplit_host (D := Stub.driver)); [reflexivity|].
  vm_compute. discriminate.
Defined.
